(** * Elucidate: the dream-questionnaire application (app.py)

    A shallow embedding of [app.py] and the properties of its interpretation
    pipeline (prompt construction, cached call of the text-generation
    service, word limit) and of its questionnaire handlers.

    Python values are modelled as follows.
    - [str]: the list of the string's Unicode code points.
    - [bytes]: a list of numbers below 256.
    - a Python list: a Rocq list, indexed the Python way (negative indices
      count from the end, an index out of range raises [IndexError]).
    - an exception that leaves a function: the [Raise] outcome. *)

From Stdlib Require Import ZArith NArith List String Ascii Lia.
From stdpp Require Import gmap list.

Local Open Scope N_scope.

(** ** Python strings *)

Abbreviation str := (list N).

(** A literal of the source, all of whose characters are ASCII. *)
Definition lit (s : string) : str := map N_of_ascii (list_ascii_of_string s).

(** [str.isspace] on one character: the code points CPython's
    [Py_UNICODE_ISSPACE] accepts; [str.strip] and [str.split] without
    arguments use the same test. *)
Definition isspace (c : N) : bool :=
  ((0x09 <=? c) && (c <=? 0x0D)) || ((0x1C <=? c) && (c <=? 0x20))
  || (c =? 0x85) || (c =? 0xA0) || (c =? 0x1680)
  || ((0x2000 <=? c) && (c <=? 0x200A))
  || (c =? 0x2028) || (c =? 0x2029) || (c =? 0x202F) || (c =? 0x205F)
  || (c =? 0x3000).

Fixpoint lstrip (s : str) : str :=
  match s with
  | c :: s' => if isspace c then lstrip s' else s
  | [] => []
  end.

Definition rstrip (s : str) : str := rev (lstrip (rev s)).

(** [s.strip()] *)
Definition strip (s : str) : str := rstrip (lstrip s).

(** Truth value of a string: non-empty. *)
Definition truthy (s : str) : bool :=
  match s with [] => false | _ :: _ => true end.

(** [s.split()]: the maximal runs of non-whitespace characters, left to
    right.  [cur] is the run being read, last character first. *)
Fixpoint split_from (cur : str) (s : str) : list str :=
  match s with
  | [] => match cur with [] => [] | _ :: _ => [rev cur] end
  | c :: s' =>
      if isspace c
      then match cur with
           | [] => split_from [] s'
           | _ :: _ => rev cur :: split_from [] s'
           end
      else split_from (c :: cur) s'
  end.

Definition split (s : str) : list str := split_from [] s.

(** [sep.join(ws)] *)
Fixpoint join (sep : str) (ws : list str) : str :=
  match ws with
  | [] => []
  | [w] => w
  | w :: ws' => w ++ sep ++ join sep ws'
  end.

(** [str(n)] for a non-negative integer, as an f-string prints it. *)
Definition digit_char (d : N) : N := 0x30 + d.

Fixpoint str_of_uint (d : Decimal.uint) : str :=
  match d with
  | Decimal.Nil => []
  | Decimal.D0 d' => digit_char 0 :: str_of_uint d'
  | Decimal.D1 d' => digit_char 1 :: str_of_uint d'
  | Decimal.D2 d' => digit_char 2 :: str_of_uint d'
  | Decimal.D3 d' => digit_char 3 :: str_of_uint d'
  | Decimal.D4 d' => digit_char 4 :: str_of_uint d'
  | Decimal.D5 d' => digit_char 5 :: str_of_uint d'
  | Decimal.D6 d' => digit_char 6 :: str_of_uint d'
  | Decimal.D7 d' => digit_char 7 :: str_of_uint d'
  | Decimal.D8 d' => digit_char 8 :: str_of_uint d'
  | Decimal.D9 d' => digit_char 9 :: str_of_uint d'
  end.

Definition str_of_nat (n : nat) : str := str_of_uint (Nat.to_uint n).

(** ** Module constants (lines 33-49) *)

Definition QUESTIONS : list str :=
  [ lit "Hello! What did you dream about last night? Describe the setting as best you can.";
    lit "Tell me more about one specific detail, figure, or symbol that stood out to you.";
    lit "What emotions did you feel throughout the dream?";
    lit "Did anything in your dream feel particularly meaningful or symbolic?";
    lit "What thoughts or emotions did you have upon waking up?";
    lit "If you could step back into the dream right now, what would you do or explore further?" ].

Definition LABELS : list str :=
  [ lit "Dream Narrative & Atmosphere";
    lit "Core Focus and Symbolic Anchor";
    lit "Emotional Undercurrents";
    lit "Latent Messages, Personal Symbols";
    lit "Lingering Impact & Subconscious Echo";
    lit "Unfinished Exploration & Desire" ].

(** ** build_prompt (lines 56-70) *)

Definition NL : str := [0x0A].

Definition PREAMBLE : str :=
  lit "You are a professional dream interpreter. You are trained in both the classics and modern schools of thought. "
  ++ lit "You take into account spirituality as well as psychology. Try to combine meanings between dream elements "
  ++ lit "and interpretations. Do not be afraid to make connections between those elements, "
  ++ lit "treat them as interconnected. Connect with the user, and speak to them directly. "
  ++ lit "Based on the following responses, provide a thoughtful and insightful interpretation of the dream. "
  ++ lit "Avoid literal and obvious interpretations. "
  ++ lit "Avoid a summary paragraph, but instead end with a self-reflective question or insight that encourages deeper personal exploration."
  ++ NL ++ NL.

(** One turn of the loop of lines 67-69. *)
Definition add_line (prompt : str) (lr : str * str) : str :=
  let '(label, response) := lr in
  if truthy (strip response)
  then prompt ++ (label ++ lit ": " ++ response ++ NL)
  else prompt.

Definition build_prompt (responses : list str) : str :=
  fold_left add_line (zip LABELS responses) PREAMBLE.

(** ** The cache key (line 75): [hashlib.sha256(prompt.encode('utf-8')).hexdigest()] *)

(** Exceptions that can leave a function of the application. *)
Inductive Exn : Set :=
  | IndexError
  | UnicodeEncodeError.

(** What a call does: it returns a value or raises. *)
Inductive Outcome (A : Type) : Type :=
  | Return (a : A)
  | Raise (e : Exn).
Arguments Return {A} a.
Arguments Raise {A} e.

Definition bind {A B : Type} (o : Outcome A) (k : A -> Outcome B) : Outcome B :=
  match o with
  | Return a => k a
  | Raise e => Raise e
  end.

Notation "'let*' x ':=' o 'in' k" := (bind o (fun x => k))
  (at level 10, x name, o at level 100, k at level 200).

(** UTF-8 bytes of one code point; a surrogate has none. *)
Definition utf8_char (c : N) : option (list N) :=
  if c <? 0x80 then Some [c]
  else if c <? 0x800 then Some [0xC0 + c / 0x40; 0x80 + c mod 0x40]
  else if (0xD800 <=? c) && (c <=? 0xDFFF) then None
  else if c <? 0x10000 then
    Some [0xE0 + c / 0x1000; 0x80 + (c / 0x40) mod 0x40; 0x80 + c mod 0x40]
  else if c <? 0x110000 then
    Some [0xF0 + c / 0x40000; 0x80 + (c / 0x1000) mod 0x40;
          0x80 + (c / 0x40) mod 0x40; 0x80 + c mod 0x40]
  else None.

(** [s.encode('utf-8')]: raises [UnicodeEncodeError] on a lone surrogate. *)
Fixpoint encode_utf8 (s : str) : Outcome (list N) :=
  match s with
  | [] => Return []
  | c :: s' =>
      match utf8_char c with
      | Some bs => let* rest := encode_utf8 s' in Return (bs ++ rest)
      | None => Raise UnicodeEncodeError
      end
  end.

Module SHA256.

(** SHA-256 (FIPS 180-4) over 32-bit words kept as [N] below [2^32]. *)

Definition w32 (x : N) : N := x mod 0x100000000.
Definition add32 (xs : list N) : N := w32 (fold_right N.add 0 xs).
Definition rotr (n x : N) : N :=
  w32 (N.lor (N.shiftr x n) (N.shiftl x (32 - n))).
Definition shr (n x : N) : N := N.shiftr x n.
Definition xor3 (a b c : N) : N := N.lxor a (N.lxor b c).

Definition Ch (x y z : N) : N :=
  N.lxor (N.land x y) (N.land (N.lxor x 4294967295) z).
Definition Maj (x y z : N) : N :=
  xor3 (N.land x y) (N.land x z) (N.land y z).
Definition bsig0 (x : N) : N := xor3 (rotr 2 x) (rotr 13 x) (rotr 22 x).
Definition bsig1 (x : N) : N := xor3 (rotr 6 x) (rotr 11 x) (rotr 25 x).
Definition ssig0 (x : N) : N := xor3 (rotr 7 x) (rotr 18 x) (shr 3 x).
Definition ssig1 (x : N) : N := xor3 (rotr 17 x) (rotr 19 x) (shr 10 x).

Definition K : list N :=
[ 1116352408; 1899447441; 3049323471; 3921009573; 961987163; 1508970993;
  2453635748; 2870763221; 3624381080; 310598401; 607225278; 1426881987;
  1925078388; 2162078206; 2614888103; 3248222580; 3835390401; 4022224774;
  264347078; 604807628; 770255983; 1249150122; 1555081692; 1996064986;
  2554220882; 2821834349; 2952996808; 3210313671; 3336571891; 3584528711;
  113926993; 338241895; 666307205; 773529912; 1294757372; 1396182291;
  1695183700; 1986661051; 2177026350; 2456956037; 2730485921; 2820302411;
  3259730800; 3345764771; 3516065817; 3600352804; 4094571909; 275423344;
  430227734; 506948616; 659060556; 883997877; 958139571; 1322822218;
  1537002063; 1747873779; 1955562222; 2024104815; 2227730452; 2361852424;
  2428436474; 2756734187; 3204031479; 3329325298 ].

Definition H0 : list N :=
[ 1779033703; 3144134277; 1013904242; 2773480762;
  1359893119; 2600822924; 528734635; 1541459225 ].

(** The big-endian bytes of [x], [n] of them. *)
Fixpoint be_bytes (n : nat) (x : N) : list N :=
  match n with
  | O => []
  | S n' => be_bytes n' (x / 256) ++ [x mod 256]
  end.

Definition be_word (bs : list N) : N :=
  fold_left (fun acc b => acc * 256 + b) bs 0.

(** The message followed by the bit 1, zeros, and its bit length on 8
    bytes, a whole number of 64-byte blocks. *)
Definition pad (msg : list N) : list N :=
  let len := N.of_nat (length msg) in
  let zeros := (64 - (len + 9) mod 64) mod 64 in
  msg ++ [0x80] ++ repeat 0 (N.to_nat zeros) ++ be_bytes 8 (8 * len).

(** [k] groups of [size] elements each. *)
Fixpoint groups {A : Type} (size k : nat) (l : list A) : list (list A) :=
  match k with
  | O => []
  | S k' => take size l :: groups size k' (drop size l)
  end.

(** Message schedule, newest word first. *)
Definition schedule_step (r : list N) : list N :=
  add32 [ssig1 (nth 1 r 0); nth 6 r 0; ssig0 (nth 14 r 0); nth 15 r 0] :: r.

Definition schedule (block : list N) : list N :=
  let w16 := map be_word (groups 4 16 block) in
  rev (Nat.iter 48 schedule_step (rev w16)).

Definition round (st : list N) (kw : N * N) : list N :=
  match st with
  | [a; b; c; d; e; f; g; h] =>
      let t1 := add32 [h; bsig1 e; Ch e f g; fst kw; snd kw] in
      let t2 := add32 [bsig0 a; Maj a b c] in
      [add32 [t1; t2]; a; b; c; add32 [d; t1]; e; f; g]
  | _ => st
  end.

Definition compress (hash : list N) (block : list N) : list N :=
  let st := fold_left round (zip K (schedule block)) hash in
  zip_with (fun x y => add32 [x; y]) hash st.

Definition digest (msg : list N) : list N :=
  let padded := pad msg in
  let blocks := groups 64 (length padded / 64) padded in
  concat (map (be_bytes 4) (fold_left compress blocks H0)).

Definition hex_digit (d : N) : N :=
  if d <? 10 then 0x30 + d else 0x61 + (d - 10).

(** [hashlib.sha256(msg).hexdigest()] *)
Definition hexdigest (msg : list N) : str :=
  concat (map (fun b => [hex_digit (b / 16); hex_digit (b mod 16)]) (digest msg)).

End SHA256.

(** Line 75. *)
Definition prompt_hash (prompt : str) : Outcome str :=
  let* bs := encode_utf8 prompt in Return (SHA256.hexdigest bs).

(** ** The outside world of a request *)

Local Open Scope Z_scope.

(** One message of a chat-completion request. *)
Record ChatMessage : Set := { role : str; content : str }.

(** The arguments of [openai.ChatCompletion.create] (lines 84-91); the
    temperature 1.2 is kept as the fraction 12/10. *)
Record ChatRequest : Set :=
  { model : str; messages : list ChatMessage; temperature : Z * Z }.

(** What the text-generation service does with a request: the call raises
    an [Exception] (named by [error]), or it returns a response whose
    [choices] carry [message.content] ([None] where the content is not a
    string). *)
Inductive ApiOutcome : Set :=
  | ApiRaises (error : str)
  | ApiResponse (choices : list (option str)).

(** What a request does to the world besides its return value. *)
Inductive Event : Set :=
  | Slept (seconds : Z)
  | Created (request : ChatRequest)
  | LoggedInfo (message : str)
  | LoggedError (message : str).

(** The process-wide state: the SimpleCache store (key to expiry time and
    value), the clock in whole seconds ([int(time())], which is what the
    store adds its timeout to), and the events so far, oldest first. *)
Record World : Type :=
  { cache : gmap (list N) (Z * list N); clock : Z; events : list Event }.

Definition emit (e : Event) (w : World) : World :=
  {| cache := cache w; clock := clock w; events := events w ++ [e] |}.

(** Time passing between two requests. *)
Definition elapse (d : Z) (w : World) : World :=
  {| cache := cache w; clock := clock w + d; events := events w |}.

(** [time.sleep(seconds)] *)
Definition sleep (seconds : Z) (w : World) : World :=
  emit (Slept seconds) (elapse seconds w).

(** Line 27. *)
Definition CACHE_DEFAULT_TIMEOUT : Z := 300.

(** [cache.get(key)]: the value of a live entry, [None] otherwise.  An
    expiry time is a whole number of seconds, so it is past the time of the
    lookup exactly when it is past the whole seconds of that time. *)
Definition cache_get (key : str) (w : World) : option str :=
  match cache w !! key with
  | Some (expires, value) => if clock w <? expires then Some value else None
  | None => None
  end.

(** ** Flask: session, form and responses *)

(** The two keys the application keeps in [session]; [None] is a key that
    is not set. *)
Record Session : Set :=
  { responses : option (list str); current_question : option Z }.

Definition fresh_session : Session :=
  {| responses := None; current_question := None |}.

(** [request.form]: the submitted fields in order; [get] reads the first
    value of a key. *)
Abbreviation Form := (list (str * str)).

Fixpoint form_get (form : Form) (key default : str) : str :=
  match form with
  | [] => default
  | (k, v) :: form' => if bool_decide (k = key) then v else form_get form' key default
  end.

(** [key in request.form] *)
Definition form_has (form : Form) (key : str) : bool :=
  existsb (fun kv => bool_decide (fst kv = key)) form.

Inductive Method : Set := GET | POST.

(** What a handler returns: a redirect to an endpoint or a rendered
    template with its arguments. *)
Inductive Response : Set :=
  | redirect (endpoint : str)
  | render_question (question : str) (q_num : Z)
  | render_review (questions responses : list str) (prompt : str)
  | render_result (interpretation : str)
  | render_page (template : str).

(** ** Python lists *)

(** The position an index denotes in a list of length [n]. *)
Definition position (n : nat) (i : Z) : Outcome nat :=
  if (0 <=? i) && (i <? Z.of_nat n) then Return (Z.to_nat i)
  else if (- Z.of_nat n <=? i) && (i <? 0) then Return (Z.to_nat (Z.of_nat n + i))
  else Raise IndexError.

(** [l[i]] *)
Definition getitem {A : Type} (l : list A) (i : Z) : Outcome A :=
  let* k := position (length l) i in
  match l !! k with
  | Some x => Return x
  | None => Raise IndexError
  end.

(** [l[i] = x] *)
Definition setitem {A : Type} (l : list A) (i : Z) (x : A) : Outcome (list A) :=
  let* k := position (length l) i in Return (<[k := x]> l).

(** [len(l)] *)
Definition len {A : Type} (l : list A) : Z := Z.of_nat (length l).

(** [[""] * len(QUESTIONS)] *)
Definition blank_responses : list str := replicate (length QUESTIONS) [].

(** ** The application *)

Definition FALLBACK : str :=
  lit "Sorry, we encountered an error while generating your interpretation. Please try again later.".

(** Lines 84-91. *)
Definition chat_request (prompt : str) : ChatRequest :=
  {| model := lit "gpt-4";
     messages :=
       [ {| role := lit "system";
            content := prompt ++ lit "You are a professional dream interpreter." |};
         {| role := lit "user";
            content := prompt ++ NL ++ NL
              ++ lit "Limit the response to 250 words. Use rich text formatting with paragraphs, bold where necessary, and bullet points if applicable." |} ];
     temperature := (12, 10) |}.

(** [response.choices[0].message.content] (line 92) after the call of line
    84: [None] when the call or one of these accesses raises. *)
Definition first_content (o : ApiOutcome) : option str :=
  match o with
  | ApiRaises _ => None
  | ApiResponse (Some text :: _) => Some text
  | ApiResponse _ => None
  end.

(** Lines 92-96: strip, then keep at most 250 words. *)
Definition enforce_word_limit (text : str) : str :=
  let interpretation := strip text in
  let words := split interpretation in
  if 250 <? len words
  then join (lit " ") (take 250 words) ++ lit "..."
  else interpretation.

Section Application.

(** The capacity policy of the cache backend: what [set] drops, at a given
    time, from a store before it inserts. *)
Variable prune : Z -> gmap (list N) (Z * list N) -> gmap (list N) (Z * list N).

(** [markdown.markdown] *)
Variable markdown : str -> str.

(** [cache.set(key, value)] with the default timeout. *)
Definition cache_set (key value : str) (w : World) : World :=
  {| cache := <[key := (clock w + CACHE_DEFAULT_TIMEOUT, value)]> (prune (clock w) (cache w));
     clock := clock w;
     events := events w |}.

(** The [try] block of lines 81-101, entered with the cache key. *)
Definition call_service (api : ChatRequest -> ApiOutcome) (key prompt : str)
    (w : World) : str * World :=
  let w := sleep 5 w in
  let request := chat_request prompt in
  let w := emit (Created request) w in
  match first_content (api request) with
  | Some text =>
      let interpretation := enforce_word_limit text in
      (interpretation, cache_set key interpretation w)
  | None =>
      (FALLBACK, emit (LoggedError (lit "Error during OpenAI API call")) w)
  end.

(** Lines 72-101.  [api] is what the service answers during this call. *)
Definition generate_interpretation (api : ChatRequest -> ApiOutcome)
    (prompt : str) (w : World) : Outcome str * World :=
  match prompt_hash prompt with
  | Raise e => (Raise e, w)
  | Return key =>
      match cache_get key w with
      | Some ((_ :: _) as cached_interpretation) =>
          (Return cached_interpretation,
           emit (LoggedInfo (lit "Returning cached interpretation.")) w)
      | _ =>
          let '(interpretation, w') := call_service api key prompt w in
          (Return interpretation, w')
      end
  end.

(** Lines 109-114. *)
Definition start (session : Session) : Outcome (Response * Session) :=
  Return (redirect (lit "main.question"),
          {| responses := Some blank_responses; current_question := Some 0 |}).

(** Lines 117-133. *)
Definition question (method : Method) (form : Form) (session : Session)
    : Outcome (Response * Session) :=
  let current := default 0 (current_question session) in
  match method with
  | POST =>
      let answer := strip (form_get form (lit "answer") []) in
      let answer := if form_has form (lit "skip") then [] else answer in
      let rs := default blank_responses (responses session) in
      let* rs := setitem rs current answer in
      if current + 1 <? len QUESTIONS
      then Return (redirect (lit "main.question"),
                   {| responses := Some rs; current_question := Some (current + 1) |})
      else Return (redirect (lit "main.review"),
                   {| responses := Some rs;
                      current_question := current_question session |})
  | GET =>
      let* q := getitem QUESTIONS current in
      Return (render_question q (current + 1), session)
  end.

(** The loop of lines 143-144 over the indices still to do. *)
Fixpoint edit_responses (form : Form) (indices : list nat) (rs : list str)
    : Outcome (list str) :=
  match indices with
  | [] => Return rs
  | i :: indices' =>
      let field := lit "question_" ++ str_of_nat i in
      let* rs := setitem rs (Z.of_nat i) (strip (form_get form field [])) in
      edit_responses form indices' rs
  end.

(** Lines 136-147. *)
Definition review (method : Method) (form : Form) (session : Session)
    : Outcome (Response * Session) :=
  let rs := default blank_responses (responses session) in
  let prompt := build_prompt rs in
  match method with
  | POST =>
      let* rs := edit_responses form (seq 0 (length QUESTIONS)) rs in
      Return (redirect (lit "main.loading"),
              {| responses := Some rs;
                 current_question := current_question session |})
  | GET => Return (render_review QUESTIONS rs prompt, session)
  end.

(** Lines 150-152. *)
Definition loading (session : Session) : Outcome (Response * Session) :=
  Return (render_page (lit "loading.html"), session).

(** Lines 155-164. *)
Definition result (api : ChatRequest -> ApiOutcome) (session : Session)
    (w : World) : Outcome (Response * Session) * World :=
  let rs := default blank_responses (responses session) in
  let prompt := build_prompt rs in
  match generate_interpretation api prompt w with
  | (Return interpretation, w') =>
      let interpretation_html := markdown interpretation in
      (Return (render_result interpretation_html, session), w')
  | (Raise e, w') => (Raise e, w')
  end.

(** A request to one of the three handlers that write the session. *)
Inductive Request : Set :=
  | to_start
  | to_question (method : Method) (form : Form)
  | to_review (method : Method) (form : Form).

Definition serve (r : Request) (session : Session) : Outcome (Response * Session) :=
  match r with
  | to_start => start session
  | to_question method form => question method form session
  | to_review method form => review method form session
  end.

(** The session a request leaves behind; a request that raises saves
    nothing. *)
Definition session_after (r : Request) (session : Session) : Session :=
  match serve r session with
  | Return (_, session') => session'
  | Raise _ => session
  end.

Definition run (requests : list Request) (session : Session) : Session :=
  fold_left (fun s r => session_after r s) requests session.

(** The invariant of the data model: a stored answer list has one answer
    per question, a stored index is the index of a question. *)
Definition session_ok (session : Session) : Prop :=
  (forall rs, responses session = Some rs -> length rs = length QUESTIONS)
  /\ (forall i, current_question session = Some i -> 0 <= i < len QUESTIONS).

End Application.

(** ** Vocabulary of the properties *)

(** An answer that is empty or all whitespace. *)
Definition blank (answer : str) : bool := forallb isspace answer.

Definition nonblank (answer : str) : bool := negb (blank answer).

(** The line of the prompt for one answer. *)
Definition prompt_line (label answer : str) : str :=
  label ++ lit ": " ++ answer ++ NL.

(** The lines owed to [answers], the first of which has index [i]: one for
    each answer that is not blank, under the label of its index. *)
Fixpoint answer_lines (i : nat) (answers : list str) : list str :=
  match answers with
  | [] => []
  | a :: answers' =>
      (if blank a then [] else [prompt_line (nth i LABELS []) a])
      ++ answer_lines (S i) answers'
  end.

(** The number of line ends in a text. *)
Definition line_ends (s : str) : nat := length (List.filter (N.eqb 0x0A) s).

(** [text] ends with [suffix]. *)
Definition endswith (text suffix : str) : Prop := exists front, text = front ++ suffix.

(** The number of words of a text, as [split] counts them. *)
Definition word_count (text : str) : Z := len (split text).

(** The prompt builder's contract in the words of the specification: the
    prompt is the preamble followed by one line for each answer that is not
    blank, in order, each of the form [<label>: <answer>]. *)
Definition one_line_per_answer (responses : list str) : Prop :=
  exists lines,
    Forall2 (fun line answer => exists label, line = prompt_line label answer)
            lines (List.filter nonblank responses)
    /\ build_prompt responses = PREAMBLE ++ concat lines.

(** A word: not empty, no whitespace in it. *)
Definition is_word (w : str) : bool :=
  truthy w && forallb (fun c => negb (isspace c)) w.

(** The cache test of lines 76-77 fails: the prompt has a key, and the cache
    holds no live, non-empty text under it. *)
Definition misses (prompt : str) (w : World) : Prop :=
  exists key,
    prompt_hash prompt = Return key
    /\ (cache_get key w = None \/ cache_get key w = Some []).

(** The entry of the prompt has not expired. *)
Definition live (prompt : str) (w : World) : Prop :=
  exists key text, prompt_hash prompt = Return key /\ cache_get key w = Some text.

Definition CACHED : Event := LoggedInfo (lit "Returning cached interpretation.").

Definition FAILED : Event := LoggedError (lit "Error during OpenAI API call").

(** The answers and the index a handler works with: those of the session,
    or the defaults of [session.get]. *)
Definition answers (session : Session) : list str :=
  default blank_responses (responses session).

Definition current (session : Session) : Z :=
  default 0 (current_question session).

(** The form field of answer [k] on the review page. *)
Definition review_field (k : nat) : str := lit "question_" ++ str_of_nat k.

(** A text without lone surrogates: every string decoded from a request. *)
Definition encodable (s : str) : Prop := exists bs, encode_utf8 s = Return bs.

(** The answer a question form submits. *)
Definition submitted_answer (form : Form) : str :=
  if form_has form (lit "skip") then [] else strip (form_get form (lit "answer") []).

(** C1 in the words of the specification: after a call that returned a
    text other than the fallback, a second call with the same prompt returns
    that text and only logs the cache hit. *)
Definition hit_after_success_as_worded
    (prune : Z -> gmap (list N) (Z * list N) -> gmap (list N) (Z * list N)) : Prop :=
  forall api1 api2 (p text : str) (w w1 : World),
    generate_interpretation prune api1 p w = (Return text, w1) ->
    text <> FALLBACK ->
    generate_interpretation prune api2 p w1 = (Return text, emit CACHED w1).

(** ** Concrete inputs *)

(** A cache below its capacity: [set] drops nothing. *)
Definition keep_all (now : Z) (store : gmap (list N) (Z * list N))
  : gmap (list N) (Z * list N) := store.

(** The world of a process that has served no request yet. *)
Definition new_world : World := {| cache := ∅; clock := 0; events := [] |}.

(** The answers of the scenario of the specification and their prompt. *)
Definition forest_answers : list str :=
  [lit "A dark forest"; []; lit "fear"; []; []; []].

Definition forest_prompt : str := build_prompt forest_answers.

(** Three behaviours of the service. *)
Definition answers_with (text : str) (request : ChatRequest) : ApiOutcome :=
  ApiResponse [Some text].

Definition rate_limited (request : ChatRequest) : ApiOutcome :=
  ApiRaises (lit "RateLimitError").

(** An answer of 251 words. *)
Definition long_answer : str := join (lit " ") (replicate 251 (lit "dream")).

Definition rest_text : str := lit "You long for rest.".

(** An identity in place of [markdown.markdown]. *)
Definition as_is (text : str) : str := text.

(** The key of the forest prompt. *)
Definition forest_key : str :=
  lit "44084f999c6ce592c70cf1043735a2578eb4f25d4beb07a0d6a5abe6bd1080c3".

(** The world after a call in [new_world] has stored [text] for the forest
    prompt. *)
Definition after_first (text : str) : World :=
  {| cache := {[ forest_key := (305, text) ]};
     clock := 5;
     events := [Slept 5; Created (chat_request forest_prompt)] |}.

(** A session at the last question. *)
Definition last_question : Session :=
  {| responses := Some forest_answers; current_question := Some 5 |}.

(** ** Further vocabulary *)

(** A code point that has a UTF-8 encoding: below [0x110000] and no
    surrogate. *)
Definition scalar_value (c : N) : bool :=
  ((c <? 0xD800) || (0xDFFF <? c))%N && (c <? 0x110000)%N.

(** The responses to a sequence of requests, one after the other, and the
    session they leave; a request that raises saves nothing. *)
Fixpoint serve_all (requests : list Request) (session : Session)
    : list (Outcome Response) * Session :=
  match requests with
  | [] => ([], session)
  | r :: requests' =>
      match serve r session with
      | Return (response, session') =>
          let '(out, final) := serve_all requests' session' in
          (Return response :: out, final)
      | Raise e =>
          let '(out, final) := serve_all requests' session in
          (Raise e :: out, final)
      end
  end.

(** ** The cache key *)

(** The digests of the FIPS 180-4 examples, and UTF-8 beyond ASCII. *)
Example sha256_empty :
  SHA256.hexdigest []
  = lit "e3b0c44298fc1c149afbf4c8996fb92427ae41e4649b934ca495991b7852b855".
Proof. vm_compute. reflexivity. Qed.

Example sha256_abc :
  prompt_hash (lit "abc")
  = Return (lit "ba7816bf8f01cfea414140de5dae2223b00361a396177a9cb410ff61f20015ad").
Proof. vm_compute. reflexivity. Qed.

Example sha256_two_blocks :
  prompt_hash (lit "abcdbcdecdefdefgefghfghighijhijkijkljklmklmnlmnomnopnopq")
  = Return (lit "248d6a61d20638b8e5c026930c3e6039a33ce45964ff2167f6ecedd419db06c1").
Proof. vm_compute. reflexivity. Qed.

Example utf8_euro_sign : encode_utf8 [0x20AC%N] = Return [0xE2; 0x82; 0xAC]%N.
Proof. reflexivity. Qed.

Example utf8_lone_surrogate : prompt_hash [0xD800%N] = Raise UnicodeEncodeError.
Proof. reflexivity. Qed.

(** ** Strings: strip and split *)

Lemma lstrip_nil_iff (s : str) : lstrip s = [] <-> forallb isspace s = true.
Proof.
  induction s as [|c s IH]; simpl; [tauto|].
  destruct (isspace c); simpl; [exact IH|].
  split; discriminate.
Qed.

Lemma lstrip_head (s : str) (c : N) (t : str) :
  lstrip s = c :: t -> isspace c = false.
Proof.
  induction s as [|d s IH]; simpl; [discriminate|].
  destruct (isspace d) eqn:E; [exact IH|].
  intros [= -> _]. exact E.
Qed.

Lemma forallb_isspace_rev (s : str) :
  forallb isspace (rev s) = forallb isspace s.
Proof.
  induction s as [|c s IH]; simpl; [reflexivity|].
  rewrite forallb_app, IH. simpl. rewrite andb_true_r. apply andb_comm.
Qed.

(** [s.strip()] is empty exactly when [s] is blank. *)
Lemma strip_nil_iff (s : str) : strip s = [] <-> blank s = true.
Proof.
  unfold strip, rstrip, blank.
  rewrite <- (lstrip_nil_iff s).
  split.
  - intros H. apply (f_equal (@rev N)) in H. rewrite rev_involutive in H.
    simpl in H. apply lstrip_nil_iff in H. rewrite forallb_isspace_rev in H.
    destruct (lstrip s) as [|c t] eqn:E; [reflexivity|].
    apply lstrip_head in E. simpl in H. rewrite E in H. discriminate.
  - intros ->. reflexivity.
Qed.

Lemma truthy_strip (s : str) : truthy (strip s) = nonblank s.
Proof.
  unfold nonblank. destruct (blank s) eqn:E.
  - apply strip_nil_iff in E. rewrite E. reflexivity.
  - destruct (strip s) eqn:S; [|reflexivity].
    apply strip_nil_iff in S. congruence.
Qed.

(** ** The prompt builder *)

Lemma add_line_spec (prompt label response : str) :
  add_line prompt (label, response)
  = prompt ++ concat (if blank response then [] else [prompt_line label response]).
Proof.
  unfold add_line. rewrite truthy_strip. unfold nonblank.
  destruct (blank response); simpl.
  - now rewrite app_nil_r.
  - now rewrite app_nil_r.
Qed.

Lemma fold_add_line (responses : list str) :
  forall (labels : list str) (prompt : str) (i : nat),
    (length responses <= length labels)%nat ->
    (forall k, nth k labels [] = nth (i + k) LABELS []) ->
    fold_left add_line (zip labels responses) prompt
    = prompt ++ concat (answer_lines i responses).
Proof.
  induction responses as [|a rs IH]; intros labels prompt i Hlen Hlab.
  - destruct labels; simpl; now rewrite app_nil_r.
  - destruct labels as [|l labels]; [simpl in Hlen; lia|].
    cbn [zip zip_with fold_left answer_lines].
    rewrite add_line_spec.
    rewrite (IH labels _ (S i)).
    + specialize (Hlab O). cbn [nth] in Hlab. rewrite Nat.add_0_r in Hlab.
      rewrite <- Hlab, concat_app, app_assoc. reflexivity.
    + simpl in Hlen. lia.
    + intros k. specialize (Hlab (S k)). cbn [nth] in Hlab.
      rewrite Hlab. f_equal. lia.
Qed.



Lemma line_ends_app (s t : str) : line_ends (s ++ t) = (line_ends s + line_ends t)%nat.
Proof. unfold line_ends. now rewrite List.filter_app, length_app. Qed.

Lemma line_ends_prompt_line (label answer : str) :
  (1 <= line_ends (prompt_line label answer))%nat.
Proof.
  unfold prompt_line. rewrite !line_ends_app.
  change (line_ends NL) with 1%nat. lia.
Qed.

Lemma line_ends_lines (lines answers : list str) :
  Forall2 (fun line answer => exists label, line = prompt_line label answer)
          lines answers ->
  (length answers <= line_ends (concat lines))%nat.
Proof.
  induction 1 as [|line a lines answers [label ->] _ IH]; simpl; [lia|].
  rewrite line_ends_app.
  pose proof (line_ends_prompt_line label a). lia.
Qed.



Example forest_prompt_lines :
  answer_lines 0 forest_answers
  = [ lit "Dream Narrative & Atmosphere: A dark forest" ++ NL;
      lit "Emotional Undercurrents: fear" ++ NL ].
Proof. reflexivity. Qed.

(** Why the answers are to be no more than the labels: [zip] stops at the
    sixth label, so a seventh answer, which no handler passes, would get no
    line. *)
Lemma build_prompt_seven_answers :
  length (List.filter nonblank (replicate 7 (lit "x"))) = 7%nat
  /\ build_prompt (replicate 7 (lit "x")) = build_prompt (replicate 6 (lit "x"))
  /\ ~ one_line_per_answer (replicate 7 (lit "x")).
Proof.
  split; [reflexivity|]. split; [reflexivity|].
  intros (lines & Hshape & Heq).
  apply line_ends_lines in Hshape.
  apply (f_equal line_ends) in Heq. rewrite line_ends_app in Heq.
  change (length (List.filter nonblank (replicate 7 (lit "x")))) with 7%nat in Hshape.
  assert (Hout : line_ends (build_prompt (replicate 7 (lit "x"))) = 8%nat) by (vm_compute; reflexivity).
  assert (Hpre : line_ends PREAMBLE = 2%nat) by (vm_compute; reflexivity).
  lia.
Qed.

(** ** Words *)

Lemma split_from_word (w : str) :
  forall cur rest,
    forallb (fun c => negb (isspace c)) w = true ->
    split_from cur (w ++ rest) = split_from (rev w ++ cur) rest.
Proof.
  induction w as [|c w IH]; intros cur rest H; [reflexivity|].
  simpl in H. apply andb_true_iff in H as [Hc Hw].
  simpl. apply negb_true_iff in Hc. rewrite Hc.
  rewrite IH by exact Hw. now rewrite <- app_assoc.
Qed.

Lemma split_from_spaces (ws : str) :
  forall cur, forallb isspace ws = true -> split_from cur ws = split_from cur [].
Proof.
  induction ws as [|c ws IH]; intros cur H; [reflexivity|].
  simpl in H. apply andb_true_iff in H as [Hc Hw].
  simpl. rewrite Hc. destruct cur; rewrite (IH []) by exact Hw; reflexivity.
Qed.

Lemma split_from_app_spaces (s ws : str) :
  forall cur, forallb isspace ws = true -> split_from cur (s ++ ws) = split_from cur s.
Proof.
  induction s as [|c s IH]; intros cur H.
  - now apply split_from_spaces.
  - simpl. destruct (isspace c); [destruct cur|]; now rewrite IH.
Qed.

Lemma split_lstrip (s : str) : split (lstrip s) = split s.
Proof.
  unfold split. induction s as [|c s IH]; [reflexivity|].
  simpl. destruct (isspace c) eqn:E; [exact IH|].
  simpl. now rewrite E.
Qed.

Lemma lstrip_decompose (s : str) :
  exists ws, forallb isspace ws = true /\ s = ws ++ lstrip s.
Proof.
  induction s as [|c s (ws & Hws & IH)]; [now exists []|].
  simpl. destruct (isspace c) eqn:E.
  - exists (c :: ws). simpl. rewrite E, Hws. split; [reflexivity | now f_equal].
  - now exists [].
Qed.

Lemma rstrip_decompose (s : str) :
  exists ws, forallb isspace ws = true /\ s = rstrip s ++ ws.
Proof.
  destruct (lstrip_decompose (rev s)) as (ws & Hws & E).
  exists (rev ws). split; [now rewrite forallb_isspace_rev|].
  unfold rstrip. rewrite <- rev_app_distr, <- E. now rewrite rev_involutive.
Qed.

(** Stripping a text does not change its words. *)
Lemma split_strip (s : str) : split (strip s) = split s.
Proof.
  unfold strip. rewrite <- (split_lstrip s).
  destruct (rstrip_decompose (lstrip s)) as (ws & Hws & E).
  rewrite E at 2. unfold split. now rewrite split_from_app_spaces.
Qed.

(** The words [split] returns are words. *)
Lemma split_from_words (s : str) :
  forall cur,
    forallb (fun c => negb (isspace c)) cur = true ->
    Forall (fun w => is_word w = true) (split_from cur s).
Proof.
  assert (Hrev : forall cur : str, cur <> [] ->
            forallb (fun c => negb (isspace c)) cur = true -> is_word (rev cur) = true).
  { intros cur Hne Hcur. unfold is_word. apply andb_true_iff. split.
    - destruct (rev cur) eqn:E; [|reflexivity].
      apply (f_equal (@rev N)) in E. rewrite rev_involutive in E. contradiction.
    - apply forallb_forall. intros x Hx. apply in_rev in Hx.
      eapply forallb_forall in Hcur; eauto. }
  induction s as [|c s IH]; intros cur Hcur; simpl.
  - destruct cur as [|d cur]; constructor; [|constructor].
    now apply Hrev.
  - destruct (isspace c) eqn:E.
    + destruct cur as [|d cur]; [now apply IH|].
      constructor; [now apply Hrev | now apply IH].
    + apply IH. simpl. now rewrite E.
Qed.

Lemma split_words (s : str) : Forall (fun w => is_word w = true) (split s).
Proof. now apply split_from_words. Qed.

(** Joining words with one space and appending an end that has no
    whitespace leaves as many words as were joined. *)
Lemma split_join_end (ws : list str) (t : str) :
  ws <> [] ->
  Forall (fun w => is_word w = true) ws ->
  forallb (fun c => negb (isspace c)) t = true ->
  length (split (join (lit " ") ws ++ t)) = length ws.
Proof.
  intros Hne Hws Ht. unfold split.
  induction Hws as [|w ws Hw Hws IH]; [contradiction|].
  unfold is_word in Hw. apply andb_true_iff in Hw as [Hw1 Hw2].
  destruct ws as [|w2 ws].
  - cbn [join]. rewrite <- (app_nil_r t).
    rewrite split_from_word by exact Hw2.
    rewrite split_from_word by exact Ht.
    simpl. destruct (rev t ++ rev w ++ []) eqn:E; [|reflexivity].
    apply app_eq_nil in E as [_ E]. apply app_eq_nil in E as [E _].
    destruct w; [discriminate|]. simpl in E. now apply app_eq_nil in E as [_ E].
  - cbn [join]. rewrite <- !app_assoc.
    rewrite split_from_word by exact Hw2.
    change (lit " " ++ join (lit " ") (w2 :: ws) ++ t)
      with (0x20%N :: (join (lit " ") (w2 :: ws) ++ t)).
    cbn [split_from]. change (isspace 0x20) with true. cbv iota.
    destruct (rev w ++ []) eqn:E.
    + apply app_eq_nil in E as [E _]. destruct w; [discriminate|].
      simpl in E. now apply app_eq_nil in E as [_ E].
    + simpl. f_equal. apply IH. discriminate.
Qed.

Lemma endswith_app (front suffix : str) : endswith (front ++ suffix) suffix.
Proof. now exists front. Qed.

(** Lines 92-96: the text kept has at most 250 words, and ends with the
    ellipsis when the text received has more. *)
Lemma enforce_word_limit_spec (raw : str) :
  word_count (enforce_word_limit raw) <= 250
  /\ (250 < word_count raw -> endswith (enforce_word_limit raw) (lit "...")).
Proof.
  unfold enforce_word_limit, word_count, len.
  rewrite split_strip.
  destruct (250 <? Z.of_nat (length (split raw))) eqn:E.
  - apply Z.ltb_lt in E. split; [|intros _; apply endswith_app].
    rewrite split_join_end.
    + rewrite length_take. lia.
    + intros H. apply (f_equal (@length str)) in H. rewrite length_take in H.
      cbn [length] in H. lia.
    + apply Forall_take, split_words.
    + reflexivity.
  - apply Z.ltb_ge in E. rewrite split_strip. split; lia.
Qed.

(** ** The interpretation service client *)

Section Service.

Variable prune : Z -> gmap (list N) (Z * list N) -> gmap (list N) (Z * list N).

Lemma generate_hit api (p key c : str) (a : N) (w : World) :
  prompt_hash p = Return key ->
  cache_get key w = Some (a :: c) ->
  generate_interpretation prune api p w = (Return (a :: c), emit CACHED w).
Proof.
  intros Hkey Hget. unfold generate_interpretation. now rewrite Hkey, Hget.
Qed.

Lemma generate_miss api (p key : str) (w : World) :
  prompt_hash p = Return key ->
  cache_get key w = None \/ cache_get key w = Some [] ->
  generate_interpretation prune api p w
  = (Return (fst (call_service prune api key p w)),
     snd (call_service prune api key p w)).
Proof.
  intros Hkey Hget. unfold generate_interpretation. rewrite Hkey.
  destruct Hget as [-> | ->]; now destruct (call_service prune api key p w).
Qed.

Lemma call_service_success api (key p raw : str) (w : World) :
  first_content (api (chat_request p)) = Some raw ->
  call_service prune api key p w
  = (enforce_word_limit raw,
     cache_set prune key (enforce_word_limit raw)
       (emit (Created (chat_request p)) (sleep 5 w))).
Proof. intros H. unfold call_service. now rewrite H. Qed.

Lemma call_service_failure api (key p : str) (w : World) :
  first_content (api (chat_request p)) = None ->
  call_service prune api key p w
  = (FALLBACK, emit FAILED (emit (Created (chat_request p)) (sleep 5 w))).
Proof. intros H. unfold call_service. now rewrite H. Qed.

(** A call that goes to the service sleeps, then sends the request. *)
Lemma call_service_events api (key p : str) (w : World) :
  exists rest,
    events (snd (call_service prune api key p w))
    = events w ++ Slept 5 :: Created (chat_request p) :: rest.
Proof.
  destruct (first_content (api (chat_request p))) as [raw|] eqn:E.
  - rewrite (call_service_success _ _ _ _ _ E). exists []. simpl.
    now rewrite <- app_assoc.
  - rewrite (call_service_failure _ _ _ _ E). exists [FAILED]. simpl.
    now rewrite <- !app_assoc.
Qed.

(** What the stored entry answers [d] seconds after [set]. *)
Lemma cache_get_after_set (key text : str) (w : World) (d : Z) :
  cache_get key (elapse d (cache_set prune key text w))
  = if d <? CACHE_DEFAULT_TIMEOUT then Some text else None.
Proof.
  unfold cache_get, elapse, cache_set. cbn [cache clock].
  rewrite lookup_insert_eq.
  destruct (d <? CACHE_DEFAULT_TIMEOUT) eqn:E.
  - apply Z.ltb_lt in E. destruct (Z.ltb_spec (clock w + d) (clock w + CACHE_DEFAULT_TIMEOUT)); [reflexivity | lia].
  - apply Z.ltb_ge in E. destruct (Z.ltb_spec (clock w + d) (clock w + CACHE_DEFAULT_TIMEOUT)); [lia | reflexivity].
Qed.

(** A miss stays a miss as long as nothing is stored. *)
Lemma misses_later (p : str) (w w' : World) :
  misses p w -> cache w' = cache w -> clock w <= clock w' -> misses p w'.
Proof.
  intros (key & Hkey & Hget) Hcache Hclock. exists key. split; [exact Hkey|].
  unfold cache_get in *. rewrite Hcache.
  destruct (cache w !! key) as [[expires text]|]; [|now left].
  destruct (Z.ltb_spec (clock w) expires), (Z.ltb_spec (clock w') expires);
    try lia; try (now left).
  destruct Hget as [Hget | Hget]; [discriminate | now right].
Qed.

Lemma generate_miss_events api (p : str) (w : World) :
  misses p w ->
  exists text w' rest,
    generate_interpretation prune api p w = (Return text, w')
    /\ events w' = events w ++ Slept 5 :: Created (chat_request p) :: rest.
Proof.
  intros (key & Hkey & Hget).
  destruct (call_service_events api key p w) as [rest Hrest].
  exists (fst (call_service prune api key p w)), (snd (call_service prune api key p w)), rest.
  split; [exact (generate_miss api p key w Hkey Hget) | exact Hrest].
Qed.

Lemma later_call_goes_to_service api (p : str) (w : World) (d : Z) :
  misses p (elapse d w) ->
  exists text w' rest,
    generate_interpretation prune api p (elapse d w) = (Return text, w')
    /\ events w' = events w ++ Slept 5 :: Created (chat_request p) :: rest.
Proof. exact (generate_miss_events api p (elapse d w)). Qed.

Lemma cache_get_set (key text : str) (w : World) :
  cache_get key (cache_set prune key text w) = Some text.
Proof.
  unfold cache_get, cache_set. cbn [cache clock]. rewrite lookup_insert_eq.
  unfold CACHE_DEFAULT_TIMEOUT.
  destruct (Z.ltb_spec (clock w) (clock w + 300)); [reflexivity | lia].
Qed.

(** Time alone does not change what a live entry holds. *)
Lemma cache_get_elapse (key text text' : str) (w : World) (d : Z) :
  0 <= d ->
  cache_get key w = Some text ->
  cache_get key (elapse d w) = Some text' ->
  text' = text.
Proof.
  unfold cache_get, elapse. cbn [cache clock]. intros Hd.
  destruct (cache w !! key) as [[expires v]|]; [|discriminate].
  destruct (clock w <? expires), (clock w + d <? expires); congruence.
Qed.

(** C1, as amended: if a first call of [generate_interpretation] returns a
    text that is neither the fallback nor empty, then a second call with
    the same prompt, made while the entry of the prompt has not expired,
    returns the same text; it logs the cache hit and does nothing else: no
    request to the service, no sleep, no change of the cache. *)
Theorem second_call_returns_cached api1 api2 (p text : str) (w w1 : World) (d : Z) :
  generate_interpretation prune api1 p w = (Return text, w1) ->
  text <> FALLBACK ->
  text <> [] ->
  0 <= d ->
  live p (elapse d w1) ->
  generate_interpretation prune api2 p (elapse d w1)
  = (Return text, emit CACHED (elapse d w1)).
Proof.
  intros Hfirst Hfallback Hempty Hd (key & text' & Hkey & Hlive).
  assert (Hsame : text' = text).
  { unfold generate_interpretation in Hfirst. rewrite Hkey in Hfirst.
    assert (Hmiss : forall t w', call_service prune api1 key p w = (t, w') ->
              t = text -> w' = w1 -> text' = text).
    { intros t w' Hcall <- <-. unfold call_service in Hcall.
      destruct (first_content (api1 (chat_request p))) as [raw|];
        injection Hcall as <- <-; [|contradiction].
      rewrite cache_get_after_set in Hlive.
      destruct (d <? CACHE_DEFAULT_TIMEOUT); congruence. }
    destruct (cache_get key w) as [[|a c]|] eqn:Hget.
    - destruct (call_service prune api1 key p w) as [t w'] eqn:Hcall.
      injection Hfirst as E1 E2. eapply Hmiss; eauto.
    - injection Hfirst as <- <-.
      eapply cache_get_elapse; [exact Hd | | exact Hlive].
      exact Hget.
    - destruct (call_service prune api1 key p w) as [t w'] eqn:Hcall.
      injection Hfirst as E1 E2. eapply Hmiss; eauto. }
  subst text'. destruct text as [|a c]; [contradiction|].
  now apply generate_hit with (key := key).
Qed.

(** The entry a call stored is live for the 300 seconds that follow. *)
Lemma live_after_call api (p : str) (w : World) (raw : str) (d : Z) :
  misses p w ->
  first_content (api (chat_request p)) = Some raw ->
  d < CACHE_DEFAULT_TIMEOUT ->
  live p (elapse d (snd (generate_interpretation prune api p w))).
Proof.
  intros (key & Hkey & Hget) Hraw Hd.
  rewrite (generate_miss api p key w Hkey Hget), (call_service_success _ _ _ _ _ Hraw).
  exists key, (enforce_word_limit raw). split; [exact Hkey|].
  cbn [snd]. rewrite cache_get_after_set.
  apply Z.ltb_lt in Hd. now rewrite Hd.
Qed.

(** C2: when the call of the service raises, [generate_interpretation]
    returns the fallback text and raises nothing, the cache is left as it
    was, and a later call with the same prompt sleeps and calls the service
    again. *)
Theorem fallback_is_not_cached api api' (p error : str) (w : World) (d : Z) :
  misses p w ->
  api (chat_request p) = ApiRaises error ->
  0 <= d ->
  exists w1,
    generate_interpretation prune api p w = (Return FALLBACK, w1)
    /\ cache w1 = cache w
    /\ events w1 = events w ++ [Slept 5; Created (chat_request p); FAILED]
    /\ exists text w2 rest,
         generate_interpretation prune api' p (elapse d w1) = (Return text, w2)
         /\ events w2 = events w1 ++ Slept 5 :: Created (chat_request p) :: rest.
Proof.
  intros Hmiss Hraise Hd.
  assert (Hnone : first_content (api (chat_request p)) = None) by now rewrite Hraise.
  destruct Hmiss as (key & Hkey & Hget).
  exists (emit FAILED (emit (Created (chat_request p)) (sleep 5 w))).
  split; [|split; [reflexivity | split]].
  - rewrite (generate_miss api p key w Hkey Hget).
    now rewrite (call_service_failure _ _ _ _ Hnone).
  - simpl. now rewrite <- !app_assoc.
  - apply later_call_goes_to_service.
    apply (misses_later p w); [now exists key | reflexivity | simpl; lia].
Qed.

(** C4: a text that [generate_interpretation] returns from an answer of the
    service has at most 250 words and is the text stored in the cache; when
    the answer has more than 250 words, that text ends with the ellipsis. *)
Theorem interpretation_word_limit api (p raw : str) (w : World) :
  misses p w ->
  first_content (api (chat_request p)) = Some raw ->
  exists text w1 key,
    generate_interpretation prune api p w = (Return text, w1)
    /\ word_count text <= 250
    /\ prompt_hash p = Return key
    /\ cache w1 !! key = Some (clock w1 + CACHE_DEFAULT_TIMEOUT, text)
    /\ (250 < word_count raw -> endswith text (lit "...")).
Proof.
  intros (key & Hkey & Hget) Hraw.
  exists (enforce_word_limit raw),
    (cache_set prune key (enforce_word_limit raw)
       (emit (Created (chat_request p)) (sleep 5 w))), key.
  destruct (enforce_word_limit_spec raw) as [Hwords Hend].
  split; [|split; [exact Hwords | split; [exact Hkey | split; [|exact Hend]]]].
  - rewrite (generate_miss api p key w Hkey Hget).
    now rewrite (call_service_success _ _ _ _ _ Hraw).
  - unfold cache_set. cbn [cache clock]. apply lookup_insert_eq.
Qed.

(** C9: when the service answers a text that is empty once stripped,
    [generate_interpretation] stores the empty text under the key of the
    prompt; a later call with the same prompt finds it, takes it for no
    entry, sleeps and calls the service again. *)
Theorem empty_interpretation_is_refetched api api' (p raw : str) (w : World) (d : Z) :
  misses p w ->
  first_content (api (chat_request p)) = Some raw ->
  strip raw = [] ->
  0 <= d ->
  exists key w1,
    prompt_hash p = Return key
    /\ generate_interpretation prune api p w = (Return [], w1)
    /\ cache w1 !! key = Some (clock w1 + CACHE_DEFAULT_TIMEOUT, [])
    /\ (d < CACHE_DEFAULT_TIMEOUT -> cache_get key (elapse d w1) = Some [])
    /\ exists text w2 rest,
         generate_interpretation prune api' p (elapse d w1) = (Return text, w2)
         /\ events w2 = events w1 ++ Slept 5 :: Created (chat_request p) :: rest.
Proof.
  intros (key & Hkey & Hget) Hraw Hstrip Hd.
  assert (Hlimit : enforce_word_limit raw = []).
  { unfold enforce_word_limit. now rewrite Hstrip. }
  exists key, (cache_set prune key [] (emit (Created (chat_request p)) (sleep 5 w))).
  split; [exact Hkey|]. split; [|split; [|split]].
  - rewrite (generate_miss api p key w Hkey Hget).
    now rewrite (call_service_success _ _ _ _ _ Hraw), Hlimit.
  - unfold cache_set. cbn [cache clock]. apply lookup_insert_eq.
  - intros Hlt. rewrite cache_get_after_set. apply Z.ltb_lt in Hlt. now rewrite Hlt.
  - apply later_call_goes_to_service. exists key. split; [exact Hkey|].
    rewrite cache_get_after_set. destruct (d <? CACHE_DEFAULT_TIMEOUT); auto.
Qed.

End Service.

(** *** The service client at the forest prompt *)

Lemma forest_prompt_key : prompt_hash forest_prompt = Return forest_key.
Proof. vm_compute. reflexivity. Qed.

Lemma forest_prompt_misses : misses forest_prompt new_world.
Proof. exists forest_key. split; [exact forest_prompt_key | left; reflexivity]. Qed.

(** The first call in a new world, when the service answers [raw]. *)
Lemma forest_first_call (raw text : str) :
  enforce_word_limit raw = text ->
  generate_interpretation keep_all (answers_with raw) forest_prompt new_world
  = (Return text, after_first text).
Proof.
  intros <-.
  rewrite (generate_miss keep_all _ _ forest_key new_world forest_prompt_key)
    by (left; reflexivity).
  rewrite (call_service_success keep_all (answers_with raw) forest_key forest_prompt raw)
    by reflexivity.
  reflexivity.
Qed.

Lemma after_first_get (text : str) (d : Z) :
  d < 300 -> cache_get forest_key (elapse d (after_first text)) = Some text.
Proof.
  intros Hd. unfold cache_get, elapse, after_first. cbn [cache clock].
  rewrite lookup_singleton_eq.
  destruct (Z.ltb_spec (5 + d) 305); [reflexivity | lia].
Qed.

(** A first call stores an interpretation; 299 seconds later a second call
    returns it from the cache although the service is down. *)
Lemma second_call_returns_cached_witness :
  generate_interpretation keep_all (answers_with rest_text) forest_prompt new_world
  = (Return rest_text, after_first rest_text)
  /\ rest_text <> FALLBACK
  /\ rest_text <> []
  /\ 0 <= 299
  /\ live forest_prompt (elapse 299 (after_first rest_text))
  /\ generate_interpretation keep_all rate_limited forest_prompt
       (elapse 299 (after_first rest_text))
     = (Return rest_text, emit CACHED (elapse 299 (after_first rest_text))).
Proof.
  assert (H1 : generate_interpretation keep_all (answers_with rest_text) forest_prompt new_world
               = (Return rest_text, after_first rest_text))
    by (apply forest_first_call; reflexivity).
  assert (H2 : rest_text <> FALLBACK) by discriminate.
  assert (H3 : rest_text <> []) by discriminate.
  assert (H4 : 0 <= 299) by lia.
  assert (H5 : live forest_prompt (elapse 299 (after_first rest_text))).
  { exists forest_key, rest_text.
    split; [exact forest_prompt_key | apply after_first_get; lia]. }
  exact (conj H1 (conj H2 (conj H3 (conj H4 (conj H5
    (second_call_returns_cached keep_all (answers_with rest_text) rate_limited
       forest_prompt rest_text new_world (after_first rest_text) 299
       H1 H2 H3 H4 H5)))))).
Defined.

Lemma forest_empty_first_call :
  generate_interpretation keep_all (answers_with (lit "  ")) forest_prompt new_world
  = (Return [], after_first []).
Proof. apply forest_first_call. reflexivity. Qed.

Lemma forest_empty_second_call :
  generate_interpretation keep_all (answers_with rest_text) forest_prompt (after_first [])
  = (Return rest_text,
     {| cache := {[ forest_key := (310, rest_text) ]};
        clock := 10;
        events := [Slept 5; Created (chat_request forest_prompt);
                   Slept 5; Created (chat_request forest_prompt)] |}).
Proof.
  rewrite (generate_miss keep_all _ _ forest_key (after_first []) forest_prompt_key)
    by (right; reflexivity).
  rewrite (call_service_success keep_all (answers_with rest_text) forest_key
             forest_prompt rest_text) by reflexivity.
  reflexivity.
Qed.

(** C1 as worded fails when the service answers whitespace: the first call
    returns the empty text, which is not the fallback, and stores it; the
    second call with the same prompt, made at once, sleeps, calls the
    service again and returns another text. *)
Lemma second_call_after_empty_text :
  generate_interpretation keep_all (answers_with (lit "  ")) forest_prompt new_world
  = (Return [], after_first [])
  /\ [] <> FALLBACK
  /\ generate_interpretation keep_all (answers_with rest_text) forest_prompt (after_first [])
     = (Return rest_text,
        {| cache := {[ forest_key := (310, rest_text) ]};
           clock := 10;
           events := [Slept 5; Created (chat_request forest_prompt);
                      Slept 5; Created (chat_request forest_prompt)] |})
  /\ ~ hit_after_success_as_worded keep_all.
Proof.
  assert (E : [] <> FALLBACK) by discriminate.
  split; [exact forest_empty_first_call|]. split; [exact E|].
  split; [exact forest_empty_second_call|].
  intros Hclaim.
  pose proof (Hclaim (answers_with (lit "  ")) (answers_with rest_text) forest_prompt []
                new_world (after_first []) forest_empty_first_call E) as H.
  rewrite forest_empty_second_call in H. discriminate H.
Qed.

(** The service is rate limited: the caller gets the fallback, nothing is
    stored, and a call a minute later goes to the service again. *)
Lemma fallback_is_not_cached_witness :
  misses forest_prompt new_world
  /\ rate_limited (chat_request forest_prompt) = ApiRaises (lit "RateLimitError")
  /\ 0 <= 60
  /\ exists w1,
       generate_interpretation keep_all rate_limited forest_prompt new_world
       = (Return FALLBACK, w1)
       /\ cache w1 = cache new_world
       /\ events w1
          = events new_world ++ [Slept 5; Created (chat_request forest_prompt); FAILED]
       /\ exists text w2 rest,
            generate_interpretation keep_all (answers_with rest_text) forest_prompt
              (elapse 60 w1)
            = (Return text, w2)
            /\ events w2
               = events w1 ++ Slept 5 :: Created (chat_request forest_prompt) :: rest.
Proof.
  assert (H1 : rate_limited (chat_request forest_prompt) = ApiRaises (lit "RateLimitError"))
    by reflexivity.
  assert (H2 : 0 <= 60) by lia.
  exact (conj forest_prompt_misses (conj H1 (conj H2
    (fallback_is_not_cached keep_all rate_limited (answers_with rest_text)
       forest_prompt (lit "RateLimitError") new_world 60
       forest_prompt_misses H1 H2)))).
Defined.

Example long_answer_words : word_count long_answer = 251.
Proof. vm_compute. reflexivity. Qed.

(** The service answers 251 words. *)
Lemma interpretation_word_limit_witness :
  misses forest_prompt new_world
  /\ first_content (answers_with long_answer (chat_request forest_prompt))
     = Some long_answer
  /\ exists text w1 key,
       generate_interpretation keep_all (answers_with long_answer) forest_prompt new_world
       = (Return text, w1)
       /\ word_count text <= 250
       /\ prompt_hash forest_prompt = Return key
       /\ cache w1 !! key = Some (clock w1 + CACHE_DEFAULT_TIMEOUT, text)
       /\ (250 < word_count long_answer -> endswith text (lit "...")).
Proof.
  assert (H1 : first_content (answers_with long_answer (chat_request forest_prompt))
               = Some long_answer) by reflexivity.
  exact (conj forest_prompt_misses (conj H1
    (interpretation_word_limit keep_all (answers_with long_answer) forest_prompt
       long_answer new_world forest_prompt_misses H1))).
Defined.

(** The service answers two spaces. *)
Lemma empty_interpretation_is_refetched_witness :
  misses forest_prompt new_world
  /\ first_content (answers_with (lit "  ") (chat_request forest_prompt))
     = Some (lit "  ")
  /\ strip (lit "  ") = []
  /\ 0 <= 60
  /\ exists key w1,
       prompt_hash forest_prompt = Return key
       /\ generate_interpretation keep_all (answers_with (lit "  ")) forest_prompt new_world
          = (Return [], w1)
       /\ cache w1 !! key = Some (clock w1 + CACHE_DEFAULT_TIMEOUT, [])
       /\ (60 < CACHE_DEFAULT_TIMEOUT -> cache_get key (elapse 60 w1) = Some [])
       /\ exists text w2 rest,
            generate_interpretation keep_all (answers_with rest_text) forest_prompt
              (elapse 60 w1)
            = (Return text, w2)
            /\ events w2
               = events w1 ++ Slept 5 :: Created (chat_request forest_prompt) :: rest.
Proof.
  assert (H1 : first_content (answers_with (lit "  ") (chat_request forest_prompt))
               = Some (lit "  ")) by reflexivity.
  assert (H2 : strip (lit "  ") = []) by reflexivity.
  assert (H3 : 0 <= 60) by lia.
  exact (conj forest_prompt_misses (conj H1 (conj H2 (conj H3
    (empty_interpretation_is_refetched keep_all (answers_with (lit "  "))
       (answers_with rest_text) forest_prompt (lit "  ") new_world 60
       forest_prompt_misses H1 H2 H3))))).
Defined.

(** ** The questionnaire handlers *)

Lemma position_in_range (n : nat) (i : Z) :
  0 <= i < Z.of_nat n -> position n i = Return (Z.to_nat i).
Proof.
  intros H. unfold position.
  destruct (Z.leb_spec 0 i), (Z.ltb_spec i (Z.of_nat n)); try lia. reflexivity.
Qed.

Lemma setitem_in_range {A : Type} (l : list A) (i : Z) (x : A) :
  0 <= i < len l -> setitem l i x = Return (<[Z.to_nat i := x]> l).
Proof. intros H. unfold setitem. now rewrite position_in_range. Qed.

Lemma getitem_in_range {A : Type} (l : list A) (i : Z) :
  0 <= i < len l -> exists x, l !! Z.to_nat i = Some x /\ getitem l i = Return x.
Proof.
  intros H. unfold getitem. rewrite position_in_range by exact H.
  destruct (lookup_lt_is_Some_2 l (Z.to_nat i)) as [x Hx]; [unfold len in H; lia|].
  exists x. simpl. now rewrite Hx.
Qed.

Lemma session_ok_answers (s : Session) :
  session_ok s -> length (answers s) = length QUESTIONS.
Proof.
  intros [Hrs _]. unfold answers. destruct (responses s) as [rs|]; simpl.
  - now apply Hrs.
  - reflexivity.
Qed.

Lemma session_ok_current (s : Session) :
  session_ok s -> 0 <= current s < len QUESTIONS.
Proof.
  intros [_ Hi]. unfold current. destruct (current_question s) as [i|]; simpl.
  - now apply Hi.
  - unfold len. simpl. lia.
Qed.

Lemma form_get_missing (form : Form) (key default : str) :
  form_has form key = false -> form_get form key default = default.
Proof.
  unfold form_has. induction form as [|[k v] form IH]; [reflexivity|].
  simpl. destruct (bool_decide (k = key)); [discriminate | exact IH].
Qed.

(** What a POST to /question does in a session that satisfies the
    invariant. *)
Lemma question_post (form : Form) (s : Session) :
  session_ok s ->
  question POST form s
  = Return
      (if current s + 1 <? len QUESTIONS
       then (redirect (lit "main.question"),
             {| responses := Some (<[Z.to_nat (current s) := submitted_answer form]> (answers s));
                current_question := Some (current s + 1) |})
       else (redirect (lit "main.review"),
             {| responses := Some (<[Z.to_nat (current s) := submitted_answer form]> (answers s));
                current_question := current_question s |})).
Proof.
  intros Hok. unfold question. fold (current s). fold (answers s).
  rewrite setitem_in_range.
  - unfold submitted_answer. cbn [bind].
    now destruct (current s + 1 <? len QUESTIONS).
  - unfold len. rewrite session_ok_answers by exact Hok.
    now apply session_ok_current.
Qed.

(** What a POST to /review does in a session that satisfies the invariant:
    every answer is replaced by its stripped form field. *)
Lemma review_post (form : Form) (s : Session) :
  session_ok s ->
  review POST form s
  = Return
      (redirect (lit "main.loading"),
       {| responses :=
            Some (map (fun k => strip (form_get form (review_field k) []))
                      (seq 0 (length QUESTIONS)));
          current_question := current_question s |}).
Proof.
  intros Hok. unfold review. fold (answers s).
  pose proof (session_ok_answers s Hok) as Hlen.
  destruct (answers s) as [|a0 [|a1 [|a2 [|a3 [|a4 [|a5 [|a6 rs]]]]]]];
    try discriminate Hlen.
  reflexivity.
Qed.

Lemma fresh_session_ok : session_ok fresh_session.
Proof. split; intros x H; discriminate H. Qed.

Lemma session_ok_intro (rs : list str) (i : option Z) (s : Session) :
  length rs = length QUESTIONS ->
  (i = current_question s \/ exists j, i = Some j /\ 0 <= j < len QUESTIONS) ->
  session_ok s ->
  session_ok {| responses := Some rs; current_question := i |}.
Proof.
  intros Hlen Hi [_ Hs]. split; cbn [responses current_question].
  - now intros ? [= <-].
  - intros j Hj. destruct Hi as [-> | (k & -> & Hk)].
    + now apply Hs.
    + now injection Hj as <-.
Qed.

(** Each of the three handlers returns in a session that satisfies the
    invariant, and leaves one that satisfies it. *)
Lemma serve_ok (r : Request) (s : Session) :
  session_ok s ->
  exists response s', serve r s = Return (response, s') /\ session_ok s'.
Proof.
  intros Hok. destruct r as [|[|] form|[|] form]; cbn [serve].
  - eexists _, _. split; [reflexivity|].
    apply (session_ok_intro _ _ fresh_session); [reflexivity | | apply fresh_session_ok].
    right. exists 0. split; [reflexivity|]. unfold len. simpl. lia.
  - unfold question. fold (current s).
    destruct (getitem_in_range QUESTIONS (current s)) as (q & _ & ->);
      [now apply session_ok_current|].
    eexists _, _. split; [reflexivity | exact Hok].
  - rewrite question_post by exact Hok.
    pose proof (session_ok_current s Hok) as Hcur.
    destruct (Z.ltb_spec (current s + 1) (len QUESTIONS)); eexists _, _;
      (split; [reflexivity|]); apply (session_ok_intro _ _ s); try exact Hok;
      try (rewrite length_insert; now apply session_ok_answers).
    + right. eexists. split; [reflexivity | lia].
    + now left.
  - eexists _, _. split; [reflexivity | exact Hok].
  - rewrite review_post by exact Hok. eexists _, _. split; [reflexivity|].
    apply (session_ok_intro _ _ s); [| now left | exact Hok].
    now rewrite length_map, length_seq.
Qed.

Lemma session_after_ok (r : Request) (s : Session) :
  session_ok s -> session_ok (session_after r s).
Proof.
  intros Hok. unfold session_after.
  destruct (serve_ok r s Hok) as (response & s' & -> & Hok'). exact Hok'.
Qed.

(** C5: in a session whose current question index is [i], a POST to
    /question stores at index [i] the stripped answer of the form, or the
    empty answer when the form has a skip field, whatever text comes with
    it; then, when [i + 1 < N], it sets the index to [i + 1] and redirects
    to the question page, and otherwise redirects to the review page. *)
Theorem question_post_stores_and_advances (form : Form) (s : Session) :
  session_ok s ->
  let i := current s in
  let answer :=
    if form_has form (lit "skip") then [] else strip (form_get form (lit "answer") []) in
  let stored := <[Z.to_nat i := answer]> (answers s) in
  stored !! Z.to_nat i = Some answer
  /\ (forall k, k <> Z.to_nat i -> stored !! k = answers s !! k)
  /\ question POST form s
     = Return
         (if i + 1 <? len QUESTIONS
          then (redirect (lit "main.question"),
                {| responses := Some stored; current_question := Some (i + 1) |})
          else (redirect (lit "main.review"),
                {| responses := Some stored; current_question := current_question s |})).
Proof.
  intros Hok i answer stored. split; [|split].
  - apply list_lookup_insert_eq.
    pose proof (session_ok_current s Hok) as Hcur.
    rewrite session_ok_answers by exact Hok. unfold len in Hcur. subst i. lia.
  - intros k Hk. now apply list_lookup_insert_ne.
  - now apply question_post.
Qed.

(** C6: every session that a sequence of requests to /start, /question and
    /review leaves behind satisfies the invariant: stored answers are as
    many as the questions, a stored index is the index of a question; and
    each handler, run in a session that satisfies the invariant, returns
    and leaves a session that satisfies it. *)
Theorem session_invariant (requests : list Request) :
  session_ok (run requests fresh_session)
  /\ (forall r s, session_ok s ->
        exists response s', serve r s = Return (response, s') /\ session_ok s').
Proof.
  split; [|exact serve_ok].
  unfold run. generalize fresh_session_ok. generalize fresh_session.
  induction requests as [|r requests IH]; intros s Hok; [exact Hok|].
  cbn [fold_left]. apply IH. now apply session_after_ok.
Qed.

(** C8: a POST to /question or to /review returns a redirect whatever the
    form holds, and an answer whose form field is missing is stored as the
    empty text. *)
Theorem missing_fields_are_blank (form : Form) (s : Session) :
  session_ok s ->
  (exists endpoint stored i,
      question POST form s
      = Return (redirect endpoint, {| responses := Some stored; current_question := i |})
      /\ (form_has form (lit "answer") = false ->
          stored !! Z.to_nat (current s) = Some []))
  /\ (exists stored,
        review POST form s
        = Return (redirect (lit "main.loading"),
                  {| responses := Some stored; current_question := current_question s |})
        /\ length stored = length QUESTIONS
        /\ forall k, (k < length QUESTIONS)%nat ->
             form_has form (review_field k) = false -> stored !! k = Some []).
Proof.
  intros Hok. split.
  - assert (Hat : form_has form (lit "answer") = false ->
               <[Z.to_nat (current s) := submitted_answer form]> (answers s)
                 !! Z.to_nat (current s) = Some []).
    { intros Hmissing. rewrite list_lookup_insert_eq.
      - unfold submitted_answer. rewrite form_get_missing by exact Hmissing.
        now destruct (form_has form (lit "skip")).
      - pose proof (session_ok_current s Hok) as Hcur.
        rewrite session_ok_answers by exact Hok. unfold len in Hcur. lia. }
    rewrite question_post by exact Hok.
    destruct (current s + 1 <? len QUESTIONS); eexists _, _, _; (split; [reflexivity | exact Hat]).
  - eexists. split; [now apply review_post|]. split.
    + now rewrite length_map, length_seq.
    + intros k Hk Hmissing.
      rewrite list_lookup_fmap, lookup_seq_lt by exact Hk. simpl.
      now rewrite form_get_missing by exact Hmissing.
Qed.

Lemma last_question_ok : session_ok last_question.
Proof.
  split; cbn [last_question responses current_question].
  - now intros rs [= <-].
  - intros i [= <-]. unfold len. simpl. lia.
Qed.

(** Outside the invariant the handlers can raise: an index past the last
    question is no position of the answer list. *)
Example question_index_out_of_range :
  question POST [] {| responses := None; current_question := Some 6 |}
  = Raise IndexError.
Proof. reflexivity. Qed.

(** At the last question, a form with both a text and the skip field: the
    empty answer is stored at index 5 and the review page comes next. *)
Lemma question_post_stores_and_advances_witness :
  session_ok last_question
  /\ (let form := [(lit "answer", lit "  the sea "); (lit "skip", lit "on")] in
      let i := current last_question in
      let answer :=
        if form_has form (lit "skip") then []
        else strip (form_get form (lit "answer") []) in
      let stored := <[Z.to_nat i := answer]> (answers last_question) in
      stored !! Z.to_nat i = Some answer
      /\ (forall k, k <> Z.to_nat i -> stored !! k = answers last_question !! k)
      /\ question POST form last_question
         = Return
             (if i + 1 <? len QUESTIONS
              then (redirect (lit "main.question"),
                    {| responses := Some stored; current_question := Some (i + 1) |})
              else (redirect (lit "main.review"),
                    {| responses := Some stored;
                       current_question := current_question last_question |}))).
Proof.
  exact (conj last_question_ok
    (question_post_stores_and_advances
       [(lit "answer", lit "  the sea "); (lit "skip", lit "on")]
       last_question last_question_ok)).
Defined.

Example last_question_skipped :
  question POST [(lit "answer", lit "  the sea "); (lit "skip", lit "on")] last_question
  = Return (redirect (lit "main.review"),
            {| responses := Some [lit "A dark forest"; []; lit "fear"; []; []; []];
               current_question := Some 5 |}).
Proof. reflexivity. Qed.

Example first_question_answered :
  question POST [(lit "answer", lit "  the sea ")] fresh_session
  = Return (redirect (lit "main.question"),
            {| responses := Some [lit "the sea"; []; []; []; []; []];
               current_question := Some 1 |}).
Proof. reflexivity. Qed.

(** Forms without any field, in a session where no key is set. *)
Lemma missing_fields_are_blank_witness :
  session_ok fresh_session
  /\ (exists endpoint stored i,
        question POST [] fresh_session
        = Return (redirect endpoint,
                  {| responses := Some stored; current_question := i |})
        /\ (form_has [] (lit "answer") = false ->
            stored !! Z.to_nat (current fresh_session) = Some []))
  /\ (exists stored,
        review POST [] fresh_session
        = Return (redirect (lit "main.loading"),
                  {| responses := Some stored;
                     current_question := current_question fresh_session |})
        /\ length stored = length QUESTIONS
        /\ forall k, (k < length QUESTIONS)%nat ->
             form_has [] (review_field k) = false -> stored !! k = Some []).
Proof.
  exact (conj fresh_session_ok
    (missing_fields_are_blank [] fresh_session fresh_session_ok)).
Defined.

(** ** The result page *)

Lemma encode_utf8_app (a b : str) :
  encode_utf8 (a ++ b)
  = (let* x := encode_utf8 a in let* y := encode_utf8 b in Return (x ++ y)).
Proof.
  induction a as [|c a IH]; simpl.
  - now destruct (encode_utf8 b).
  - destruct (utf8_char c) as [bs|]; [|reflexivity].
    rewrite IH. destruct (encode_utf8 a) as [x|e]; [|reflexivity]. simpl.
    destruct (encode_utf8 b) as [y|e]; [|reflexivity]. simpl.
    now rewrite app_assoc.
Qed.

Lemma encodable_app (a b : str) : encodable a -> encodable b -> encodable (a ++ b).
Proof.
  intros [x Hx] [y Hy]. exists (x ++ y). now rewrite encode_utf8_app, Hx, Hy.
Qed.

Lemma encodable_preamble : encodable PREAMBLE.
Proof. eexists. vm_compute. reflexivity. Qed.

Lemma encodable_labels : Forall encodable LABELS.
Proof. repeat constructor; eexists; vm_compute; reflexivity. Qed.

Lemma encodable_fold (responses : list str) :
  forall labels prompt,
    encodable prompt -> Forall encodable labels -> Forall encodable responses ->
    encodable (fold_left add_line (zip labels responses) prompt).
Proof.
  induction responses as [|a rs IH]; intros labels prompt Hp Hl Hr.
  - now destruct labels.
  - destruct labels as [|l labels]; [exact Hp|].
    inversion Hl; subst. inversion Hr; subst.
    cbn [zip zip_with fold_left]. apply IH; try assumption.
    unfold add_line. destruct (truthy (strip a)); [|exact Hp].
    repeat apply encodable_app; try assumption.
    + now exists [0x3A; 0x20]%N.
    + now exists [0x0A]%N.
Qed.

Lemma encodable_build_prompt (responses : list str) :
  Forall encodable responses -> encodable (build_prompt responses).
Proof.
  intros H. apply encodable_fold;
    [apply encodable_preamble | apply encodable_labels | exact H].
Qed.

Section Result.

Variable prune : Z -> gmap (list N) (Z * list N) -> gmap (list N) (Z * list N).
Variable markdown : str -> str.

(** [generate_interpretation] returns on every prompt that can be encoded. *)
Lemma generate_returns api (p : str) (w : World) :
  encodable p ->
  exists text w', generate_interpretation prune api p w = (Return text, w').
Proof.
  intros [bs Hbs].
  assert (Hkey : prompt_hash p = Return (SHA256.hexdigest bs)).
  { unfold prompt_hash. now rewrite Hbs. }
  destruct (cache_get (SHA256.hexdigest bs) w) as [[|a c]|] eqn:Hget.
  - eexists _, _. apply (generate_miss prune api p _ w Hkey). now right.
  - eexists _, _. now apply (generate_hit prune api p _ c a w Hkey).
  - eexists _, _. apply (generate_miss prune api p _ w Hkey). now left.
Qed.

(** C7: a GET to /result builds the prompt from the answers of the session,
    hands it to [generate_interpretation], converts the text it returns
    with [markdown] and renders the result page; the session it leaves is
    the session it found. *)
Theorem result_leaves_session api (s : Session) (w : World) :
  Forall encodable (answers s) ->
  exists text w',
    generate_interpretation prune api (build_prompt (answers s)) w = (Return text, w')
    /\ result prune markdown api s w
       = (Return (render_result (markdown text), s), w').
Proof.
  intros Hvalid.
  destruct (generate_returns api (build_prompt (answers s)) w) as (text & w' & Hgen);
    [now apply encodable_build_prompt|].
  exists text, w'. split; [exact Hgen|].
  unfold result. fold (answers s). now rewrite Hgen.
Qed.

(** C10: in a session where neither key is set, a GET to /question shows
    the first question, a GET to /review shows six empty answers and the
    prompt that is the preamble alone, and a GET to /result hands that
    prompt to [generate_interpretation] and renders what it returns; none of
    the three raises or changes the session. *)
Theorem fresh_session_pages (form : Form) api (w : World) :
  question GET form fresh_session
  = Return (render_question
              (lit "Hello! What did you dream about last night? Describe the setting as best you can.")
              1,
            fresh_session)
  /\ review GET form fresh_session
     = Return (render_review QUESTIONS (replicate 6 []) PREAMBLE, fresh_session)
  /\ exists text w',
       generate_interpretation prune api PREAMBLE w = (Return text, w')
       /\ result prune markdown api fresh_session w
          = (Return (render_result (markdown text), fresh_session), w').
Proof.
  split; [reflexivity|]. split; [reflexivity|].
  destruct (generate_returns api PREAMBLE w encodable_preamble) as (text & w' & Hgen).
  exists text, w'. split; [exact Hgen|].
  unfold result. change (build_prompt _) with PREAMBLE. now rewrite Hgen.
Qed.

End Result.

Lemma forest_answers_encodable : Forall encodable (answers last_question).
Proof. repeat constructor; eexists; reflexivity. Qed.

(** The result page of the forest answers. *)
Lemma result_leaves_session_witness :
  Forall encodable (answers last_question)
  /\ exists text w',
       generate_interpretation keep_all (answers_with rest_text)
         (build_prompt (answers last_question)) new_world
       = (Return text, w')
       /\ result keep_all as_is (answers_with rest_text) last_question new_world
          = (Return (render_result (as_is text), last_question), w').
Proof.
  exact (conj forest_answers_encodable
    (result_leaves_session keep_all as_is (answers_with rest_text) last_question
       new_world forest_answers_encodable)).
Defined.

(** An answer with a lone surrogate has no UTF-8 encoding: line 75 raises
    before the [try] block is entered. *)
Example result_lone_surrogate :
  result keep_all as_is (answers_with rest_text)
    {| responses := Some [[0xD800%N]]; current_question := None |} new_world
  = (Raise UnicodeEncodeError, new_world).
Proof. reflexivity. Qed.

(** * Further properties of the application *)

(** ** The prompt builder on any list of answers *)

Lemma zip_take_labels (labels responses : list str) :
  zip labels (take (length labels) responses) = zip labels responses.
Proof.
  revert responses. induction labels as [|l labels IH]; intros [|a rs]; simpl;
    try reflexivity.
  now rewrite IH.
Qed.

Lemma prompt_line_not_nil (label answer : str) : prompt_line label answer <> [].
Proof.
  unfold prompt_line. intros H.
  apply app_eq_nil in H as [_ H]. apply app_eq_nil in H as [_ H].
  apply app_eq_nil in H as [_ H]. discriminate H.
Qed.

Lemma answer_lines_nil_iff (answers : list str) :
  forall i, concat (answer_lines i answers) = [] <-> forallb blank answers = true.
Proof.
  induction answers as [|a rs IH]; intros i; simpl; [tauto|].
  destruct (blank a); simpl; [apply IH|].
  split; [|discriminate].
  intros H. apply app_eq_nil in H as [H _]. now apply prompt_line_not_nil in H.
Qed.

(** X1: [build_prompt] reads at most as many answers as there are labels:
    on every list of answers the prompt is the one of its first six
    answers, the preamble followed by the lines of those that are not
    blank. *)
Theorem build_prompt_reads_six (responses : list str) :
  build_prompt responses = build_prompt (take (length LABELS) responses)
  /\ build_prompt responses
     = PREAMBLE ++ concat (answer_lines 0 (take (length LABELS) responses)).
Proof.
  assert (E : build_prompt responses = build_prompt (take (length LABELS) responses)).
  { unfold build_prompt. now rewrite zip_take_labels. }
  split; [exact E|]. rewrite E. unfold build_prompt.
  apply fold_add_line; [|reflexivity].
  rewrite length_take. lia.
Qed.

(** X2: the prompt is the preamble alone exactly when each of the first
    six answers is empty or all whitespace. *)
Theorem build_prompt_preamble_only (responses : list str) :
  build_prompt responses = PREAMBLE
  <-> forallb blank (take (length LABELS) responses) = true.
Proof.
  rewrite <- (answer_lines_nil_iff _ 0%nat).
  assert (E : build_prompt responses
              = PREAMBLE ++ concat (answer_lines 0 (take (length LABELS) responses))).
  { unfold build_prompt. rewrite <- zip_take_labels.
    apply fold_add_line; [|reflexivity]. rewrite length_take. lia. }
  rewrite E. split.
  - intros H. rewrite <- (app_nil_r PREAMBLE) in H at 2.
    now apply app_inv_head in H.
  - intros ->. apply app_nil_r.
Qed.

(** ** Stripping twice *)

Lemma lstrip_fixed (c : N) (s : str) : isspace c = false -> lstrip (c :: s) = c :: s.
Proof. intros H. simpl. now rewrite H. Qed.

Lemma lstrip_app_end (s : str) (c : N) :
  isspace c = false -> lstrip (s ++ [c]) = lstrip s ++ [c].
Proof.
  intros H. induction s as [|d s IH]; simpl.
  - now rewrite H.
  - destruct (isspace d); [exact IH | reflexivity].
Qed.

Lemma rstrip_cons (c : N) (s : str) :
  isspace c = false -> rstrip (c :: s) = c :: rstrip s.
Proof.
  intros H. unfold rstrip. simpl. rewrite lstrip_app_end by exact H.
  now rewrite rev_app_distr.
Qed.

Lemma rstrip_app_end (s : str) (c : N) :
  isspace c = false -> rstrip (s ++ [c]) = s ++ [c].
Proof.
  intros H. unfold rstrip. rewrite rev_app_distr. simpl. rewrite H.
  simpl. now rewrite rev_involutive.
Qed.

Lemma lstrip_lstrip (s : str) : lstrip (lstrip s) = lstrip s.
Proof.
  induction s as [|c s IH]; [reflexivity|]. simpl.
  destruct (isspace c) eqn:E; [exact IH|]. simpl. now rewrite E.
Qed.

Lemma rstrip_rstrip (s : str) : rstrip (rstrip s) = rstrip s.
Proof. unfold rstrip. now rewrite rev_involutive, lstrip_lstrip. Qed.

(** [s.strip().strip() == s.strip()] *)
Lemma strip_strip (s : str) : strip (strip s) = strip s.
Proof.
  unfold strip. destruct (lstrip s) as [|c t] eqn:E; [reflexivity|].
  pose proof (lstrip_head _ _ _ E) as Hc.
  rewrite (rstrip_cons c t Hc). rewrite (lstrip_fixed c _ Hc).
  rewrite <- (rstrip_cons c t Hc). apply rstrip_rstrip.
Qed.


(** ** The word limit, word by word *)

Lemma is_word_head (w : str) :
  is_word w = true -> exists c t, w = c :: t /\ isspace c = false.
Proof.
  unfold is_word. destruct w as [|c t]; [discriminate|]. simpl.
  intros H. apply andb_true_iff in H as [H _]. apply negb_true_iff in H.
  now exists c, t.
Qed.

Lemma rev_word_not_nil (w : str) : is_word w = true -> rev w ++ [] <> [].
Proof.
  intros H. destruct (is_word_head w H) as (c & t & -> & _). simpl.
  intros E. apply app_eq_nil in E as [E _]. now apply app_eq_nil in E as [_ E].
Qed.

Lemma join_cons (sep w w2 : str) (ws : list str) :
  join sep (w :: w2 :: ws) = w ++ sep ++ join sep (w2 :: ws).
Proof. reflexivity. Qed.

Lemma split_from_space (cur s : str) :
  cur <> [] -> split_from cur (lit " " ++ s) = rev cur :: split_from [] s.
Proof. intros H. destruct cur; [contradiction | reflexivity]. Qed.

(** The words of joined words with an end appended: the words, the last one
    with the end. *)
Lemma split_join_end_words (ws : list str) (t : str) :
  ws <> [] ->
  Forall (fun w => is_word w = true) ws ->
  forallb (fun c => negb (isspace c)) t = true ->
  split (join (lit " ") ws ++ t) = removelast ws ++ [List.last ws [] ++ t].
Proof.
  intros Hne Hws Ht. unfold split.
  induction Hws as [|w ws Hw Hws IH]; [contradiction|].
  pose proof (rev_word_not_nil w Hw) as Hrev.
  unfold is_word in Hw. apply andb_true_iff in Hw as [_ Hw2].
  destruct ws as [|w2 ws].
  - cbn [join removelast List.last app]. rewrite <- (app_nil_r t).
    rewrite split_from_word by exact Hw2.
    rewrite split_from_word by exact Ht.
    cbn [split_from].
    destruct (rev t ++ rev w ++ []) eqn:E.
    + apply app_eq_nil in E as [_ E]. contradiction.
    + rewrite <- E, app_nil_r, <- rev_app_distr, rev_involutive.
      now rewrite app_nil_r.
  - rewrite (join_cons (lit " ") w w2 ws), <- !app_assoc.
    rewrite split_from_word by exact Hw2.
    rewrite split_from_space by exact Hrev.
    rewrite app_nil_r, rev_involutive.
    rewrite IH by discriminate. reflexivity.
Qed.

(** X3: the word limit changes no word but the last: up to 250 words the
    text keeps its words; beyond, it keeps the first 249 and the 250th with
    the ellipsis appended to it. *)
Theorem enforce_word_limit_words (raw : str) :
  split (enforce_word_limit raw)
  = if 250 <? word_count raw
    then removelast (take 250 (split raw))
           ++ [List.last (take 250 (split raw)) [] ++ lit "..."]
    else split raw.
Proof.
  unfold enforce_word_limit, word_count. rewrite split_strip.
  destruct (250 <? len (split raw)) eqn:E.
  - apply Z.ltb_lt in E. unfold len in E. apply split_join_end_words.
    + intros H. apply (f_equal (@length str)) in H. rewrite length_take in H.
      cbn [length] in H. lia.
    + apply Forall_take, split_words.
    + reflexivity.
  - apply split_strip.
Qed.

Lemma join_words_head (ws : list str) (t : str) :
  ws <> [] ->
  Forall (fun w => is_word w = true) ws ->
  exists c rest, join (lit " ") ws ++ t = c :: rest /\ isspace c = false.
Proof.
  intros Hne Hws. destruct Hws as [|w ws Hw _]; [contradiction|].
  destruct (is_word_head w Hw) as (c & u & -> & Hc).
  destruct ws; cbn [join]; simpl; eauto.
Qed.

Lemma strip_fixed (s front : str) (c d : N) (rest : str) :
  s = c :: rest -> isspace c = false ->
  s = front ++ [d] -> isspace d = false ->
  strip s = s.
Proof.
  intros Hs Hc Hfront Hd. unfold strip.
  rewrite Hs, (lstrip_fixed c rest Hc), <- Hs, Hfront.
  now apply rstrip_app_end.
Qed.

(** The text the word limit returns has no whitespace at either end. *)
Lemma enforce_word_limit_stripped (raw : str) :
  strip (enforce_word_limit raw) = enforce_word_limit raw.
Proof.
  unfold enforce_word_limit. cbv zeta.
  destruct (250 <? len (split (strip raw))) eqn:E; [|apply strip_strip].
  apply Z.ltb_lt in E. unfold len in E.
  destruct (join_words_head (take 250 (split (strip raw))) (lit "..."))
    as (c & rest & Hj & Hc).
  - intros H. apply (f_equal (@length str)) in H. rewrite length_take in H.
    cbn [length] in H. lia.
  - apply Forall_take, split_words.
  - apply (strip_fixed _ (join (lit " ") (take 250 (split (strip raw))) ++ [0x2E; 0x2E]%N)
             c 0x2E%N rest Hj Hc); [|reflexivity].
    now rewrite <- app_assoc.
Qed.

(** X4: applying the word limit to its own result changes nothing. *)
Theorem enforce_word_limit_idempotent (raw : str) :
  enforce_word_limit (enforce_word_limit raw) = enforce_word_limit raw.
Proof.
  assert (Hwords : word_count (enforce_word_limit raw) <= 250)
    by apply enforce_word_limit_spec.
  unfold enforce_word_limit at 1. cbv zeta.
  rewrite enforce_word_limit_stripped.
  unfold word_count in Hwords.
  destruct (Z.ltb_spec 250 (len (split (enforce_word_limit raw)))); [lia | reflexivity].
Qed.

(** ** The service client: errors, events, expiry *)

Lemma utf8_char_scalar (c : N) :
  utf8_char c = None <-> scalar_value c = false.
Proof.
  unfold utf8_char, scalar_value.
  destruct (N.ltb_spec c 0x80), (N.ltb_spec c 0x800), (N.leb_spec 0xD800 c),
    (N.leb_spec c 0xDFFF), (N.ltb_spec c 0x10000), (N.ltb_spec c 0x110000),
    (N.ltb_spec c 0xD800), (N.ltb_spec 0xDFFF c);
    simpl; try lia; split; congruence.
Qed.

Lemma encode_utf8_scalar (p : str) :
  forallb scalar_value p = true -> encodable p.
Proof.
  induction p as [|c p IH]; simpl; [now exists []|].
  intros H. apply andb_true_iff in H as [Hc Hp].
  destruct (IH Hp) as [bs Hbs]. unfold encodable. simpl.
  destruct (utf8_char c) as [b|] eqn:E.
  - rewrite Hbs. now exists (b ++ bs).
  - apply utf8_char_scalar in E. congruence.
Qed.

Lemma encode_utf8_surrogate (p : str) :
  forallb scalar_value p = false -> encode_utf8 p = Raise UnicodeEncodeError.
Proof.
  induction p as [|c p IH]; simpl; [discriminate|].
  intros H. destruct (utf8_char c) as [b|] eqn:E; [|reflexivity].
  destruct (scalar_value c) eqn:Hc.
  - simpl in H. now rewrite (IH H).
  - apply utf8_char_scalar in Hc. congruence.
Qed.

Section ServiceMore.

Variable prune : Z -> gmap (list N) (Z * list N) -> gmap (list N) (Z * list N).

(** X5: [generate_interpretation] raises exactly on a prompt that holds a
    code point without a UTF-8 encoding (a lone surrogate): it raises
    [UnicodeEncodeError] and leaves the world as it was; on every other
    prompt it returns a text, whatever the service does. *)
Theorem generate_raises_on_surrogates api (p : str) (w : World) :
  if forallb scalar_value p
  then exists text w', generate_interpretation prune api p w = (Return text, w')
  else generate_interpretation prune api p w = (Raise UnicodeEncodeError, w).
Proof.
  destruct (forallb scalar_value p) eqn:E.
  - apply generate_returns. now apply encode_utf8_scalar.
  - unfold generate_interpretation, prompt_hash.
    now rewrite (encode_utf8_surrogate p E).
Qed.

(** X6: one call of [generate_interpretation] sends at most one request to
    the service, and sends it right after one sleep of 5 seconds: the
    events of a call are none (it raised), the log line of a cache hit
    (cache and clock untouched), or the sleep and the request, followed by
    the error log line when the call of the service failed. *)
Theorem generate_sends_one_request api (p : str) (w : World) :
  let w' := snd (generate_interpretation prune api p w) in
  exists added,
    events w' = events w ++ added
    /\ ((added = [] /\ w' = w)
        \/ (added = [CACHED] /\ cache w' = cache w /\ clock w' = clock w)
        \/ ((added = [Slept 5; Created (chat_request p)]
             \/ added = [Slept 5; Created (chat_request p); FAILED])
            /\ clock w' = clock w + 5)).
Proof.
  intros w'. subst w'. unfold generate_interpretation.
  destruct (prompt_hash p) as [key|e].
  - assert (Hmiss :
      let w' := snd (let '(t, w1) := call_service prune api key p w in (Return t, w1)) in
      exists added,
        events w' = events w ++ added
        /\ ((added = [] /\ w' = w)
            \/ (added = [CACHED] /\ cache w' = cache w /\ clock w' = clock w)
            \/ ((added = [Slept 5; Created (chat_request p)]
                 \/ added = [Slept 5; Created (chat_request p); FAILED])
                /\ clock w' = clock w + 5))).
    { unfold call_service.
      destruct (first_content (api (chat_request p))) as [raw|]; cbn.
      - exists [Slept 5; Created (chat_request p)]. rewrite <- app_assoc.
        split; [reflexivity|]. right. right. split; [now left | reflexivity].
      - exists [Slept 5; Created (chat_request p); FAILED]. rewrite <- !app_assoc.
        split; [reflexivity|]. right. right. split; [now right | reflexivity]. }
    destruct (cache_get key w) as [[|a c]|]; try exact Hmiss.
    exists [CACHED]. split; [reflexivity|]. right. left. now repeat split.
  - exists []. split; [now rewrite app_nil_r|]. now left.
Qed.

(** X7: an entry lasts 300 seconds: a call with the same prompt made 300
    seconds or more after the call that stored the text sleeps and sends
    the request again. *)
Theorem stored_text_expires api api' (p raw : str) (w : World) (d : Z) :
  misses p w ->
  first_content (api (chat_request p)) = Some raw ->
  CACHE_DEFAULT_TIMEOUT <= d ->
  exists w1,
    generate_interpretation prune api p w = (Return (enforce_word_limit raw), w1)
    /\ exists text w2 rest,
         generate_interpretation prune api' p (elapse d w1) = (Return text, w2)
         /\ events w2 = events w1 ++ Slept 5 :: Created (chat_request p) :: rest.
Proof.
  intros (key & Hkey & Hget) Hraw Hd.
  exists (cache_set prune key (enforce_word_limit raw)
            (emit (Created (chat_request p)) (sleep 5 w))).
  split.
  - rewrite (generate_miss prune api p key w Hkey Hget).
    now rewrite (call_service_success prune _ _ _ _ _ Hraw).
  - apply later_call_goes_to_service. exists key. split; [exact Hkey|].
    rewrite cache_get_after_set.
    destruct (Z.ltb_spec d CACHE_DEFAULT_TIMEOUT); [lia | now left].
Qed.

End ServiceMore.

(** The service answers; five minutes later the text is gone. *)
Lemma stored_text_expires_witness :
  misses forest_prompt new_world
  /\ first_content (answers_with rest_text (chat_request forest_prompt)) = Some rest_text
  /\ CACHE_DEFAULT_TIMEOUT <= 300
  /\ exists w1,
       generate_interpretation keep_all (answers_with rest_text) forest_prompt new_world
       = (Return (enforce_word_limit rest_text), w1)
       /\ exists text w2 rest,
            generate_interpretation keep_all rate_limited forest_prompt (elapse 300 w1)
            = (Return text, w2)
            /\ events w2
               = events w1 ++ Slept 5 :: Created (chat_request forest_prompt) :: rest.
Proof.
  assert (H1 : first_content (answers_with rest_text (chat_request forest_prompt))
               = Some rest_text) by reflexivity.
  assert (H2 : CACHE_DEFAULT_TIMEOUT <= 300) by (unfold CACHE_DEFAULT_TIMEOUT; lia).
  exact (conj forest_prompt_misses (conj H1 (conj H2
    (stored_text_expires keep_all (answers_with rest_text) rate_limited
       forest_prompt rest_text new_world 300 forest_prompt_misses H1 H2)))).
Defined.

(** ** The questionnaire, request after request *)

Definition QUESTION_PAGE : Outcome Response := Return (redirect (lit "main.question")).

Definition REVIEW_PAGE : Outcome Response := Return (redirect (lit "main.review")).

(** X8: whatever the session, a request to /start followed by [k <= 6]
    POSTs to /question stores the [k] submitted answers in order, leaves
    the other answers empty and the index at [k], or at 5 after the sixth;
    /start and the first five POSTs redirect to the question page, the
    sixth to the review page. *)
Theorem questionnaire_flow (forms : list Form) (s : Session) :
  (length forms <= length QUESTIONS)%nat ->
  serve_all (to_start :: map (to_question POST) forms) s
  = (QUESTION_PAGE
       :: map (fun j => if (j <? 5)%nat then QUESTION_PAGE else REVIEW_PAGE)
              (seq 0 (length forms)),
     {| responses :=
          Some (map submitted_answer forms
                  ++ replicate (length QUESTIONS - length forms) []);
        current_question := Some (Z.of_nat (Nat.min (length forms) 5)) |}).
Proof.
  intros Hlen.
  destruct forms as [|f0 [|f1 [|f2 [|f3 [|f4 [|f5 [|f6 forms]]]]]]];
    try (simpl in Hlen; lia); reflexivity.
Qed.

(** Six forms, the second with the skip field. *)
Lemma questionnaire_flow_witness :
  let forms :=
    [ [(lit "answer", lit " A dark forest ")];
      [(lit "answer", lit "an owl"); (lit "skip", lit "1")];
      [(lit "answer", lit "fear")]; []; []; [] ] in
  (length forms <= length QUESTIONS)%nat
  /\ serve_all (to_start :: map (to_question POST) forms) last_question
     = (QUESTION_PAGE
          :: map (fun j => if (j <? 5)%nat then QUESTION_PAGE else REVIEW_PAGE)
                 (seq 0 (length forms)),
        {| responses :=
             Some (map submitted_answer forms
                     ++ replicate (length QUESTIONS - length forms) []);
           current_question := Some (Z.of_nat (Nat.min (length forms) 5)) |}).
Proof.
  intros forms.
  assert (H : (length forms <= length QUESTIONS)%nat) by (simpl; lia).
  exact (conj H (questionnaire_flow forms last_question H)).
Defined.

Example questionnaire_flow_session :
  snd (serve_all
         (to_start
            :: map (to_question POST)
                 [ [(lit "answer", lit " A dark forest ")];
                   [(lit "answer", lit "an owl"); (lit "skip", lit "1")];
                   [(lit "answer", lit "fear")]; []; []; [] ])
         fresh_session)
  = last_question.
Proof. reflexivity. Qed.

Lemma submitted_answer_stripped (form : Form) :
  strip (submitted_answer form) = submitted_answer form.
Proof.
  unfold submitted_answer. destruct (form_has form (lit "skip")); [reflexivity|].
  apply strip_strip.
Qed.

Lemma blank_responses_stripped : Forall (fun a => strip a = a) blank_responses.
Proof. repeat constructor. Qed.

Lemma session_after_stripped (r : Request) (s : Session) :
  session_ok s ->
  Forall (fun a => strip a = a) (answers s) ->
  Forall (fun a => strip a = a) (answers (session_after r s)).
Proof.
  intros Hok Hs. unfold session_after.
  destruct r as [|[|] form|[|] form]; cbn [serve].
  - exact blank_responses_stripped.
  - unfold question. destruct (getitem QUESTIONS _); [exact Hs | exact Hs].
  - rewrite question_post by exact Hok.
    destruct (current s + 1 <? len QUESTIONS); unfold answers at 1; cbn [responses default];
      (apply Forall_insert; [exact Hs | apply submitted_answer_stripped]).
  - exact Hs.
  - rewrite review_post by exact Hok. unfold answers at 1. cbn [responses default].
    apply Forall_forall. intros a Ha. apply list_elem_of_fmap in Ha as (k & -> & _).
    apply strip_strip.
Qed.

(** X9: every answer kept in a session that requests to /start, /question
    and /review have produced is stripped: it has no whitespace at either
    end, so it is blank only when it is empty. *)
Theorem stored_answers_are_stripped (requests : list Request) :
  Forall (fun a => strip a = a /\ (blank a = true -> a = []))
         (answers (run requests fresh_session)).
Proof.
  assert (H : session_ok (run requests fresh_session)
              /\ Forall (fun a => strip a = a) (answers (run requests fresh_session))).
  { unfold run.
    assert (H0 : session_ok fresh_session
                 /\ Forall (fun a => strip a = a) (answers fresh_session))
      by (split; [apply fresh_session_ok | apply blank_responses_stripped]).
    revert H0. generalize fresh_session.
    induction requests as [|r requests IH]; intros s [Hok Hs]; [now split|].
    cbn [fold_left]. apply IH. split.
    - now apply session_after_ok.
    - now apply session_after_stripped. }
  destruct H as [_ H]. eapply Forall_impl; [exact H|].
  intros a Ha. split; [exact Ha|].
  intros Hb. apply strip_nil_iff in Hb. congruence.
Qed.

(** X10: only /start moves the index back: /start sets it to 0, a POST to
    /question leaves it or adds one, every other request to /question and
    /review leaves it, in any session, also when the request raises. *)
Theorem index_steps (r : Request) (s : Session) :
  match r with
  | to_start => current (session_after r s) = 0
  | to_question POST _ =>
      current (session_after r s) = current s
      \/ current (session_after r s) = current s + 1
  | _ => current (session_after r s) = current s
  end.
Proof.
  unfold session_after. destruct r as [|[|] form|[|] form]; cbn [serve].
  - reflexivity.
  - unfold question. now destruct (getitem QUESTIONS _).
  - unfold question. fold (current s).
    destruct (setitem _ (current s) _) as [rs|e]; cbn [bind]; [|now left].
    destruct (current s + 1 <? len QUESTIONS); [now right | now left].
  - reflexivity.
  - unfold review. destruct (edit_responses _ _ _); reflexivity.
Qed.

(** X13: a POST to /review replaces every stored answer by the stripped
    form field of its index, keeps the index, and sent again with the same
    form changes nothing more. *)
Theorem review_post_overwrites (form : Form) (s : Session) :
  session_ok s ->
  let s' := session_after (to_review POST form) s in
  responses s'
  = Some (map (fun k => strip (form_get form (review_field k) []))
              (seq 0 (length QUESTIONS)))
  /\ current_question s' = current_question s
  /\ session_after (to_review POST form) s' = s'.
Proof.
  intros Hok s'. subst s'.
  assert (E : session_after (to_review POST form) s
              = {| responses :=
                     Some (map (fun k => strip (form_get form (review_field k) []))
                               (seq 0 (length QUESTIONS)));
                   current_question := current_question s |}).
  { unfold session_after. cbn [serve]. now rewrite review_post. }
  rewrite E. split; [reflexivity|]. split; [reflexivity|].
  unfold session_after. cbn [serve]. rewrite review_post; [reflexivity|].
  rewrite <- E. now apply session_after_ok.
Qed.

(** The review form of the forest answers, sent at the last question. *)
Lemma review_post_overwrites_witness :
  let form := [(review_field 0, lit " A dark forest"); (review_field 2, lit "fear ")] in
  session_ok last_question
  /\ (let s' := session_after (to_review POST form) last_question in
      responses s'
      = Some (map (fun k => strip (form_get form (review_field k) []))
                  (seq 0 (length QUESTIONS)))
      /\ current_question s' = current_question last_question
      /\ session_after (to_review POST form) s' = s').
Proof.
  intros form.
  exact (conj last_question_ok (review_post_overwrites form last_question last_question_ok)).
Defined.

Lemma position_out_of_range (n : nat) (i : Z) :
  i < - Z.of_nat n \/ Z.of_nat n <= i -> position n i = Raise IndexError.
Proof.
  intros H. unfold position.
  destruct (Z.leb_spec 0 i), (Z.ltb_spec i (Z.of_nat n)),
    (Z.leb_spec (- Z.of_nat n) i), (Z.ltb_spec i 0); try lia; reflexivity.
Qed.

(** X14: a GET to /question shows the question at the stored index [i]
    with the number [i + 1] when [0 <= i <= 5]; it raises [IndexError] when
    [i >= 6] or [i < -6]; and for [-6 <= i < 0] it shows the question
    counted from the end, as Python indexes a list.  It never changes the
    session. *)
Theorem question_get_bounds (form : Form) (s : Session) :
  question GET form s
  = if (-6 <=? current s) && (current s <? 6)
    then Return (render_question (nth (Z.to_nat (current s mod 6)) QUESTIONS [])
                                 (current s + 1), s)
    else Raise IndexError.
Proof.
  unfold question. fold (current s). generalize (current s). intros i.
  destruct (Z.leb_spec (-6) i), (Z.ltb_spec i 6); cbn [andb].
  - assert (Hi : i = -6 \/ i = -5 \/ i = -4 \/ i = -3 \/ i = -2 \/ i = -1
                 \/ i = 0 \/ i = 1 \/ i = 2 \/ i = 3 \/ i = 4 \/ i = 5) by lia.
    repeat (destruct Hi as [-> | Hi]; [reflexivity|]). now subst i.
  - unfold getitem. rewrite position_out_of_range; [reflexivity|].
    right. change (Z.of_nat (length QUESTIONS)) with 6. lia.
  - unfold getitem. rewrite position_out_of_range; [reflexivity|].
    left. change (Z.of_nat (length QUESTIONS)) with 6. lia.
  - lia.
Qed.

(** ** The result page and the service *)

Section ResultMore.

Variable prune : Z -> gmap (list N) (Z * list N) -> gmap (list N) (Z * list N).
Variable markdown : str -> str.

(** X11: the prompt the review page shows is the prompt the result page
    sends: when the cache has nothing for it, a GET to /result sleeps and
    sends the service the request built from the very prompt a GET to
    /review renders for the same session. *)
Theorem review_shows_prompt_sent api (form : Form) (s : Session) (w : World) :
  misses (build_prompt (answers s)) w ->
  exists prompt page w' rest,
    review GET form s = Return (render_review QUESTIONS (answers s) prompt, s)
    /\ result prune markdown api s w = (Return (page, s), w')
    /\ events w' = events w ++ Slept 5 :: Created (chat_request prompt) :: rest.
Proof.
  intros Hmiss.
  destruct (generate_miss_events prune api _ w Hmiss) as (text & w' & rest & Hgen & Hev).
  exists (build_prompt (answers s)), (render_result (markdown text)), w', rest.
  split; [reflexivity|]. split; [|exact Hev].
  unfold result. fold (answers s). now rewrite Hgen.
Qed.

(** X12: when the call of the service raises, the result page is not an
    error page: a GET to /result renders the fallback text, converted by
    [markdown], keeps the session and stores nothing in the cache. *)
Theorem result_shows_fallback api (s : Session) (w : World) (error : str) :
  misses (build_prompt (answers s)) w ->
  api (chat_request (build_prompt (answers s))) = ApiRaises error ->
  exists w',
    result prune markdown api s w
    = (Return (render_result (markdown FALLBACK), s), w')
    /\ cache w' = cache w.
Proof.
  intros (key & Hkey & Hget) Hraise.
  assert (Hnone : first_content (api (chat_request (build_prompt (answers s)))) = None)
    by now rewrite Hraise.
  eexists. split.
  - unfold result. fold (answers s).
    rewrite (generate_miss prune api _ key w Hkey Hget).
    rewrite (call_service_failure prune _ _ _ _ Hnone). reflexivity.
  - reflexivity.
Qed.

(** X15: loading the result page again at most 299 seconds after the text
    was stored shows the same page without a request to the service.  The
    store keeps whole seconds ([int(time()) + 300]), so an entry is sure to
    be served for 299 seconds, and not for the whole of the 300th: after a
    GET to /result that obtained a non-empty text from the service, a
    second GET for the same session, made when the clock has advanced by
    [d <= 299] seconds, renders the same page, only logs the cache hit,
    and does so whatever the service would answer then. *)
Theorem result_reload api1 api2 (s : Session) (w : World) (raw : str) (d : Z) :
  misses (build_prompt (answers s)) w ->
  first_content (api1 (chat_request (build_prompt (answers s)))) = Some raw ->
  enforce_word_limit raw <> [] ->
  d <= CACHE_DEFAULT_TIMEOUT - 1 ->
  exists w1,
    result prune markdown api1 s w
    = (Return (render_result (markdown (enforce_word_limit raw)), s), w1)
    /\ result prune markdown api2 s (elapse d w1)
       = (Return (render_result (markdown (enforce_word_limit raw)), s),
          emit CACHED (elapse d w1)).
Proof.
  intros (key & Hkey & Hget) Hraw Htext Hd.
  exists (cache_set prune key (enforce_word_limit raw)
            (emit (Created (chat_request (build_prompt (answers s)))) (sleep 5 w))).
  split.
  - unfold result. fold (answers s).
    rewrite (generate_miss prune api1 _ key w Hkey Hget).
    rewrite (call_service_success prune _ _ _ _ _ Hraw). reflexivity.
  - unfold result. fold (answers s).
    destruct (enforce_word_limit raw) as [|a c] eqn:E; [contradiction|].
    rewrite (generate_hit prune api2 _ key c a); [reflexivity | exact Hkey |].
    rewrite cache_get_after_set.
    destruct (Z.ltb_spec d CACHE_DEFAULT_TIMEOUT); [reflexivity | lia].
Qed.

End ResultMore.

Lemma last_question_prompt_misses : misses (build_prompt (answers last_question)) new_world.
Proof. exact forest_prompt_misses. Qed.

(** The review and the result page of the forest answers. *)
Lemma review_shows_prompt_sent_witness :
  misses (build_prompt (answers last_question)) new_world
  /\ exists prompt page w' rest,
       review GET [] last_question
       = Return (render_review QUESTIONS (answers last_question) prompt, last_question)
       /\ result keep_all as_is (answers_with rest_text) last_question new_world
          = (Return (page, last_question), w')
       /\ events w'
          = events new_world ++ Slept 5 :: Created (chat_request prompt) :: rest.
Proof.
  exact (conj last_question_prompt_misses
    (review_shows_prompt_sent keep_all as_is (answers_with rest_text) []
       last_question new_world last_question_prompt_misses)).
Defined.

(** The result page of the forest answers while the service is rate
    limited. *)
Lemma result_shows_fallback_witness :
  misses (build_prompt (answers last_question)) new_world
  /\ rate_limited (chat_request (build_prompt (answers last_question)))
     = ApiRaises (lit "RateLimitError")
  /\ exists w',
       result keep_all as_is rate_limited last_question new_world
       = (Return (render_result (as_is FALLBACK), last_question), w')
       /\ cache w' = cache new_world.
Proof.
  assert (H : rate_limited (chat_request (build_prompt (answers last_question)))
              = ApiRaises (lit "RateLimitError")) by reflexivity.
  exact (conj last_question_prompt_misses (conj H
    (result_shows_fallback keep_all as_is rate_limited last_question new_world
       (lit "RateLimitError") last_question_prompt_misses H))).
Defined.

(** The result page of the forest answers, loaded again 299 seconds after
    the text was stored, while the service is rate limited. *)
Lemma result_reload_witness :
  misses (build_prompt (answers last_question)) new_world
  /\ first_content (answers_with rest_text (chat_request (build_prompt (answers last_question))))
     = Some rest_text
  /\ enforce_word_limit rest_text <> []
  /\ 299 <= CACHE_DEFAULT_TIMEOUT - 1
  /\ exists w1,
       result keep_all as_is (answers_with rest_text) last_question new_world
       = (Return (render_result (as_is (enforce_word_limit rest_text)), last_question), w1)
       /\ result keep_all as_is rate_limited last_question (elapse 299 w1)
          = (Return (render_result (as_is (enforce_word_limit rest_text)), last_question),
             emit CACHED (elapse 299 w1)).
Proof.
  assert (H1 : first_content
                 (answers_with rest_text (chat_request (build_prompt (answers last_question))))
               = Some rest_text) by reflexivity.
  assert (H2 : enforce_word_limit rest_text <> []) by discriminate.
  assert (H3 : 299 <= CACHE_DEFAULT_TIMEOUT - 1) by (unfold CACHE_DEFAULT_TIMEOUT; lia).
  exact (conj last_question_prompt_misses (conj H1 (conj H2 (conj H3
    (result_reload keep_all as_is (answers_with rest_text) rate_limited last_question
       new_world rest_text 299 last_question_prompt_misses H1 H2 H3))))).
Defined.
